(** * ClickBus backend worker: log ring buffer and pod identity

    A shallow embedding of the Hono worker of the ClickBus demo
    (the backend module with [POD_GUID], [podLogs], [requestCount] and the
    seven routes), followed by the properties of its log buffer, request
    counter and identity token.

    Conventions of the embedding.
    - A JavaScript string is a [string]; the only characters the worker
      looks at are ASCII (the pipe and the line feed).
    - The two module-level [let] variables are the fields of [State]; every
      handler takes the state and returns the response with the new state.
    - The two module-level [const]s are the fields of [Pod], fixed by [boot].
    - What a handler reads from outside the program (the bindings [c.env],
      the clock, the random source) comes in through [Ctx], one per request.
    - A response is its status and its body. Response headers (the CORS
      middleware only adds headers), console output and the answer to paths
      the worker declares no route for are left out. *)

From Stdlib Require Import ZArith QArith List Bool Lia.
From Stdlib Require Import Strings.String Strings.Ascii Numbers.DecimalString.
Import ListNotations.

Open Scope string_scope.
Open Scope Z_scope.

(** ** The JavaScript runtime, as far as the worker uses it *)

Module Js.

(** The line feed, written [\n] in the source's literals. *)
Definition LF : ascii := "010"%char.
Definition nl : string := String LF EmptyString.
Definition pipe : ascii := "|"%char.

(** [Number.prototype.toString] on an integral number below 1e21: the plain
    decimal numeral, with a minus sign when negative. *)
Definition toString (n : Z) : string := NilZero.string_of_int (Z.to_int n).

(** [x++] on a number that holds a non-negative integer. Numbers are IEEE
    doubles: up to 2^53 the successor is exact, and 2^53 + 1 rounds back to
    2^53 (ties to even), so the increment has no effect from there on. *)
Definition MAX_EXACT : Z := 2 ^ 53.
Definition incr (n : Z) : Z := if n <? MAX_EXACT then n + 1 else n.

(** [a || d] on an optional string: [undefined] and the empty string are
    falsy. *)
Definition or_default (a : option string) (d : string) : string :=
  match a with
  | Some s => if String.eqb s "" then d else s
  | None => d
  end.

(** [Array.prototype.join]. *)
Definition join (sep : string) (xs : list string) : string := String.concat sep xs.

(** [Array.prototype.slice(-n)]: the last [n] elements, all of them when the
    array is shorter. *)
Definition slice_last {A} (n : nat) (xs : list A) : list A :=
  skipn (List.length xs - n)%nat xs.

(** [s.replace(/\|/g, r)]: every pipe character gives way to [r]. *)
Fixpoint replace_pipes (r : string) (s : string) : string :=
  match s with
  | EmptyString => EmptyString
  | String c rest =>
      if Ascii.eqb c pipe then r ++ replace_pipes r rest
      else String c (replace_pipes r rest)
  end.

(** [String.prototype.includes]. *)
Fixpoint includes (sub s : string) : bool :=
  if String.prefix sub s then true
  else match s with
       | EmptyString => false
       | String _ rest => includes sub rest
       end.

(** Does the character occur in the string? *)
Fixpoint has_char (c : ascii) (s : string) : bool :=
  match s with
  | EmptyString => false
  | String d rest => Ascii.eqb d c || has_char c rest
  end.

(** [s.split('\n')]: the lines of a text, never an empty list. *)
Fixpoint lines (s : string) : list string :=
  match s with
  | EmptyString => [EmptyString]
  | String c rest =>
      if Ascii.eqb c LF then EmptyString :: lines rest
      else match lines rest with
           | l :: ls => String c l :: ls
           | [] => [String c EmptyString]
           end
  end.

(** A [Date]: its epoch milliseconds ([getTime]) and its rendering by
    [toISOString]; [new Date(iso).getTime()] gives the milliseconds back. *)
Record Date := { getTime : Z; toISOString : string }.

(** [crypto.randomUUID()]: a version 4 UUID in the canonical 8-4-4-4-12
    lower-case form, drawn from 128 random bits (here the low 128 bits of
    [r], most significant byte first). *)
Definition hex_digit (n : Z) : ascii :=
  match n with
  | 0 => "0" | 1 => "1" | 2 => "2" | 3 => "3" | 4 => "4" | 5 => "5"
  | 6 => "6" | 7 => "7" | 8 => "8" | 9 => "9" | 10 => "a" | 11 => "b"
  | 12 => "c" | 13 => "d" | 14 => "e" | _ => "f"
  end%char.

Definition uuid_byte (r : Z) (i : Z) : Z :=
  let b := Z.land (Z.shiftr r (8 * (15 - i))) 255 in
  if i =? 6 then Z.lor (Z.land b 15) 64
  else if i =? 8 then Z.lor (Z.land b 63) 128
  else b.

Definition hex_byte (b : Z) (k : string) : string :=
  String (hex_digit (Z.shiftr b 4)) (String (hex_digit (Z.land b 15)) k).

Definition hex_bytes (r : Z) (idx : list Z) (k : string) : string :=
  fold_right (fun i acc => hex_byte (uuid_byte r i) acc) k idx.

Definition randomUUID (r : Z) : string :=
  let dash k := String "-"%char k in
  hex_bytes r [0; 1; 2; 3] (dash
  (hex_bytes r [4; 5] (dash
  (hex_bytes r [6; 7] (dash
  (hex_bytes r [8; 9] (dash
  (hex_bytes r [10; 11; 12; 13; 14; 15] "")))))))).

#[local] Set Warnings "-register-all".

(** A value produced by [JSON.parse]. An object lists its members as the
    text had them; a member written twice keeps its last value. *)
Inductive JSON :=
| JNull
| JBool (b : bool)
| JNumber (q : Q)
| JString (s : string)
| JArray (items : list JSON)
| JObject (members : list (string * JSON)).

(** Property read [o[k]] on a parsed object: [None] is [undefined]. *)
Fixpoint prop (k : string) (members : list (string * JSON)) : option JSON :=
  match members with
  | [] => None
  | (k', v) :: rest =>
      match prop k rest with
      | Some v' => Some v'
      | None => if String.eqb k' k then Some v else None
      end
  end.

(** The member [k] of a payload; a payload that is no object has none. *)
Definition member (k : string) (j : JSON) : option JSON :=
  match j with
  | JObject ms => prop k ms
  | _ => None
  end.

(** The payload with every member named [k] taken out. *)
Definition without (k : string) (j : JSON) : JSON :=
  match j with
  | JObject ms => JObject (filter (fun kv => negb (String.eqb (fst kv) k)) ms)
  | _ => j
  end.

End Js.

(** ** The request validator: zod's [z.object] behind [zValidator('json', _)] *)

Module Zod.
Import Js.

(** [z.string()] on a member that may be [undefined]. *)
Definition z_string (v : option JSON) : option string :=
  match v with
  | Some (JString s) => Some s
  | _ => None
  end.

(** [z.string().optional()]: [undefined] passes as [undefined]. *)
Definition z_string_optional (v : option JSON) : option (option string) :=
  match v with
  | None => Some None
  | Some (JString s) => Some (Some s)
  | Some _ => None
  end.

(** The validated payload, [c.req.valid('json')]; members the schema does
    not name are stripped. *)
Record LogAction := {
  action : string;
  guid : string;
  details : string;
  timestamp : string;
  podName : option string
}.

(** [LogActionSchema]: [None] is a failed parse. *)
Definition LogActionSchema (j : JSON) : option LogAction :=
  match j with
  | JObject ms =>
      match z_string (prop "action" ms), z_string (prop "guid" ms),
            z_string (prop "details" ms), z_string (prop "timestamp" ms),
            z_string_optional (prop "podName" ms) with
      | Some a, Some g, Some d, Some t, Some p =>
          Some {| action := a; guid := g; details := d; timestamp := t;
                  podName := p |}
      | _, _, _, _, _ => None
      end
  | _ => None
  end.

End Zod.

(** ** The worker *)

Module Backend.
Import Js.

(** The bindings [c.env] the handlers read. *)
Record Env := {
  POD_NAME : option string;
  POD_NAMESPACE : option string;
  POD_IP : option string;
  AZURE_SERVICE_BUS_CONNECTION_STRING : option string
}.

(** What one request reads from outside the program: its bindings, the
    [Date] that [new Date()] gives, the number [Date.now()] gives, and the
    random bits [crypto.randomUUID()] draws. *)
Record Ctx := {
  env : Env;
  new_Date : Date;
  Date_now : Z;
  random : Z
}.

(** The module-level constants, set once when the module is loaded.
    [POD_START_TIME] keeps the [Date] whose [toISOString] the source stores,
    since the status routes parse that string back for the uptime. *)
Record Pod := {
  POD_GUID : string;
  POD_START_TIME : Date
}.

(** The module-level variables. *)
Record State := {
  podLogs : list string;
  requestCount : Z
}.

(** A value inside a JSON response. *)
Inductive Value :=
| VString (s : string)
| VNumber (n : Z)
| VBool (b : bool)
| VStrings (xs : list string).

(** [c.json(obj, status)], [c.text(body, status)], and the 400 response
    that [zValidator] sends by itself when the schema rejects the payload
    (its body, zod's error report, is not modelled). *)
Inductive Response :=
| json (status : Z) (obj : list (string * Value))
| text (status : Z) (body : string)
| validation_failed.

Definition status (r : Response) : Z :=
  match r with
  | json st _ => st
  | text st _ => st
  | validation_failed => 400
  end.

Definition client_error (r : Response) : bool :=
  (400 <=? status r) && (status r <? 500).

(** Member read on a JSON response. *)
Fixpoint field (k : string) (obj : list (string * Value)) : option Value :=
  match obj with
  | [] => None
  | (k', v) :: rest => if String.eqb k' k then Some v else field k rest
  end.

Definition response_field (k : string) (r : Response) : option Value :=
  match r with
  | json _ obj => field k obj
  | _ => None
  end.

Definition response_text (r : Response) : option string :=
  match r with
  | text _ body => Some body
  | _ => None
  end.

(** The routes. *)
Inductive Request :=
| POST_api_log (payload : JSON)
| GET_api_logs_guid
| GET_api_logs_data
| GET_api_pod_guid
| GET_api_pod_status
| GET_api_health
| GET_root.

(** Module initialisation: the identity and the start time are drawn once,
    the buffer is empty and the counter is zero. *)
Definition boot (c : Ctx) : Pod * State :=
  ({| POD_GUID := randomUUID (random c); POD_START_TIME := new_Date c |},
   {| podLogs := []; requestCount := 0 |}).

Definition pod_name (e : Env) : string := or_default (POD_NAME e) "backend-pod".

(** [Math.floor((Date.now() - new Date(POD_START_TIME).getTime()) / 1000)] *)
Definition uptime (p : Pod) (c : Ctx) : Z :=
  (Date_now c - getTime (POD_START_TIME p)) / 1000.

(** *** POST /api/log *)

(** The template literal of [logEntry]; [count] is [requestCount] after its
    increment. *)
Definition logEntry (p : Pod) (c : Ctx) (logData : Zod.LogAction) (count : Z)
  : string :=
  toISOString (new_Date c) ++ " | Pod: " ++ pod_name (env c)
  ++ " | GUID: " ++ POD_GUID p
  ++ " | Action: " ++ Zod.action logData
  ++ " | Details: " ++ Zod.details logData
  ++ " | Req#: " ++ toString count.

(** [podLogs.push(logEntry); if (podLogs.length > 100) podLogs = podLogs.slice(-100)] *)
Definition push_capped (entry : string) (logs : list string) : list string :=
  let pushed := (logs ++ [entry])%list in
  if (100 <? List.length pushed)%nat then slice_last 100 pushed else pushed.

(** The handler body, run on a payload the validator has accepted. Nothing
    in it can throw (the bindings object always exists and the Service Bus
    client is never built), so its [catch] branch with the 500 response has
    no counterpart here. *)
Definition post_api_log (p : Pod) (c : Ctx) (logData : Zod.LogAction) (s : State)
  : Response * State :=
  let count := incr (requestCount s) in
  let entry := logEntry p c logData count in
  (json 200 [("success", VBool true);
             ("message", VString "Action logged successfully");
             ("logId", VString (randomUUID (random c)))],
   {| podLogs := push_capped entry (podLogs s); requestCount := count |}).

(** *** GET /api/logs/guid

    Like the handler above, the two log views wrap their body in a [try]
    whose [catch] answers 500; string concatenation and [join] do not
    throw, so that branch is never taken. *)

Definition guid_header (p : Pod) (c : Ctx) (s : State) : string :=
  "=== ClickBus Pod GUID Logs ===" ++ nl
  ++ "Pod: " ++ pod_name (env c) ++ nl
  ++ "GUID: " ++ POD_GUID p ++ nl
  ++ "Started: " ++ toISOString (POD_START_TIME p) ++ nl
  ++ "Total Requests Processed: " ++ toString (requestCount s) ++ nl ++ nl
  ++ "=== Recent Activity ===" ++ nl.

Definition guid_placeholder : string := "No activity logged yet on this pod.".

Definition get_api_logs_guid (p : Pod) (c : Ctx) (s : State) : Response * State :=
  let header := guid_header p c s in
  if (List.length (podLogs s) =? 0)%nat
  then (text 200 (header ++ guid_placeholder), s)
  else (text 200 (header ++ join nl (podLogs s)), s).

(** *** GET /api/logs/data *)

Definition data_header (p : Pod) (c : Ctx) (s : State) : string :=
  "=== ClickBus Data Activity Log ===" ++ nl
  ++ "Pod Name: " ++ pod_name (env c) ++ nl
  ++ "Pod GUID: " ++ POD_GUID p ++ nl
  ++ "Uptime: " ++ toISOString (POD_START_TIME p) ++ nl
  ++ "Requests Handled: " ++ toString (requestCount s) ++ nl ++ nl.

Definition data_placeholder : string :=
  "No user interactions logged yet on this pod." ++ nl ++ nl
  ++ "Note: In a 10-replica deployment, you'll see different pod GUIDs serving different requests, demonstrating load distribution.".

(** [log => log.replace(/\|/g, ' -')] *)
Definition format_log (log : string) : string := replace_pipes " -" log.

Definition get_api_logs_data (p : Pod) (c : Ctx) (s : State) : Response * State :=
  let header := data_header p c s in
  if (List.length (podLogs s) =? 0)%nat
  then (text 200 (header ++ data_placeholder), s)
  else (text 200 (header ++ join nl (map format_log (podLogs s))), s).

(** *** GET /api/pod-guid, which counts itself *)

Definition get_api_pod_guid (p : Pod) (c : Ctx) (s : State) : Response * State :=
  let count := incr (requestCount s) in
  (json 200 [("podGuid", VString (POD_GUID p));
             ("podName", VString (pod_name (env c)));
             ("startTime", VString (toISOString (POD_START_TIME p)));
             ("requestsHandled", VNumber count);
             ("timestamp", VString (toISOString (new_Date c)));
             ("uptime", VString (toString (uptime p c) ++ " seconds"))],
   {| podLogs := podLogs s; requestCount := count |}).

(** *** GET /api/pod-status *)

Definition get_api_pod_status (p : Pod) (c : Ctx) (s : State) : Response * State :=
  (json 200 [("deployment", VString "ClickBus Backend");
             ("podName", VString (pod_name (env c)));
             ("podGuid", VString (POD_GUID p));
             ("namespace", VString (or_default (POD_NAMESPACE (env c)) "clickbus"));
             ("podIP", VString (or_default (POD_IP (env c)) "unknown"));
             ("startTime", VString (toISOString (POD_START_TIME p)));
             ("uptime", VNumber (uptime p c));
             ("requestsProcessed", VNumber (requestCount s));
             ("logEntries", VNumber (Z.of_nat (List.length (podLogs s))));
             ("timestamp", VString (toISOString (new_Date c)));
             ("note", VString "In a 10-replica deployment, each pod will have a unique GUID and process different requests")],
   s).

(** *** GET /api/health *)

Definition get_api_health (p : Pod) (c : Ctx) (s : State) : Response * State :=
  (json 200 [("status", VString "healthy");
             ("service", VString "ClickBus Backend");
             ("timestamp", VString (toISOString (new_Date c)));
             ("podName", VString (pod_name (env c)));
             ("podGuid", VString (POD_GUID p));
             ("uptime", VString (toString (uptime p c) ++ "s"));
             ("requestsProcessed", VNumber (requestCount s));
             ("deploymentReady", VBool true)],
   s).

(** *** GET / *)

Definition get_root (p : Pod) (c : Ctx) (s : State) : Response * State :=
  (json 200 [("service", VString "ClickBus Backend API");
             ("version", VString "1.0.0");
             ("podGuid", VString (POD_GUID p));
             ("podName", VString (pod_name (env c)));
             ("startTime", VString (toISOString (POD_START_TIME p)));
             ("requestsHandled", VNumber (requestCount s));
             ("endpoints", VStrings ["/api/log"; "/api/logs/guid"; "/api/logs/data";
                                     "/api/health"; "/api/pod-guid"; "/api/pod-status"]);
             ("deploymentNote", VString "Each pod in a 10-replica deployment will show a unique GUID")],
   s).

(** *** The application: routing, with the validator in front of POST /api/log *)

Definition handle (p : Pod) (c : Ctx) (q : Request) (s : State) : Response * State :=
  match q with
  | POST_api_log payload =>
      match Zod.LogActionSchema payload with
      | Some logData => post_api_log p c logData s
      | None => (validation_failed, s)
      end
  | GET_api_logs_guid => get_api_logs_guid p c s
  | GET_api_logs_data => get_api_logs_data p c s
  | GET_api_pod_guid => get_api_pod_guid p c s
  | GET_api_pod_status => get_api_pod_status p c s
  | GET_api_health => get_api_health p c s
  | GET_root => get_root p c s
  end.

(** One process lifetime after start-up: the requests are handled one after
    the other, each with its own context; the responses come out in order. *)
Fixpoint run (p : Pod) (qs : list (Ctx * Request)) (s : State)
  : list Response * State :=
  match qs with
  | [] => ([], s)
  | (c, q) :: rest =>
      let (r, s1) := handle p c q s in
      let (rs, s2) := run p rest s1 in
      (r :: rs, s2)
  end.

(** The whole lifetime: start-up from [c0], then the requests. *)
Definition lifetime (c0 : Ctx) (qs : list (Ctx * Request)) : list Response * State :=
  let (p, s0) := boot c0 in run p qs s0.

End Backend.

(** ** The buffer as the specification words it *)

Module Reference.
Import Js Backend.

(** The entries that a series of ingestion calls produces, in arrival
    order, when the counter stands at [count] before the first call; a
    call whose payload the validator rejects produces none. *)
Fixpoint entries (p : Pod) (count : Z) (calls : list (Ctx * JSON)) : list string :=
  match calls with
  | [] => []
  | (c, payload) :: rest =>
      match Zod.LogActionSchema payload with
      | Some logData =>
          logEntry p c logData (incr count) :: entries p (incr count) rest
      | None => entries p count rest
      end
  end.

(** An ingestion call with a payload the validator accepts. *)
Definition valid_call (cj : Ctx * JSON) : Prop := Zod.LogActionSchema (snd cj) <> None.

(** The calls as requests to the application. *)
Definition ingestion (calls : list (Ctx * JSON)) : list (Ctx * Request) :=
  map (fun cj => (fst cj, POST_api_log (snd cj))) calls.

(** Append, then drop from the front what exceeds the capacity. *)
Definition append_then_truncate (capacity : nat) (buffer arrived : list string)
  : list string :=
  slice_last capacity (buffer ++ arrived).

(** A log line with every pipe character turned into one dash character,
    the reading of the data report in which a pipe gives way to a dash and
    to nothing else. *)
Definition pipes_to_dashes (log : string) : string := replace_pipes "-" log.

(** The routes whose response carries the identity token. *)
Definition reports_identity (q : Request) : bool :=
  match q with
  | POST_api_log _ => false
  | _ => true
  end.

(** The token [g] stands in the response: as the [podGuid] member of a JSON
    response, after a [GUID: ] label and up to the end of the line in a
    text report. *)
Definition carries_token (g : string) (r : Response) : bool :=
  match r with
  | json _ obj =>
      match field "podGuid" obj with
      | Some (VString g') => String.eqb g' g
      | _ => false
      end
  | text _ body => includes ("GUID: " ++ g ++ nl) body
  | validation_failed => false
  end.

End Reference.

(** ** Sample data *)

Module Sample.
Import Js Backend.

Definition epoch : Date :=
  {| getTime := 0; toISOString := "1970-01-01T00:00:00.000Z" |}.

Definition bare_env : Env :=
  {| POD_NAME := None; POD_NAMESPACE := None; POD_IP := None;
     AZURE_SERVICE_BUS_CONNECTION_STRING := None |}.

Definition ctx0 : Ctx :=
  {| env := bare_env; new_Date := epoch; Date_now := 0; random := 0 |}.

Definition pod0 : Pod := fst (boot ctx0).
Definition state0 : State := snd (boot ctx0).

(** [{action:"tile_click", guid:"g1", details:"d1", timestamp:"t1"}] *)
Definition tile_click : JSON :=
  JObject [("action", JString "tile_click"); ("guid", JString "g1");
           ("details", JString "d1"); ("timestamp", JString "t1")].

(** The same payload with the [podName] the front end sends. *)
Definition tile_click_from_frontend : JSON :=
  JObject [("action", JString "tile_click"); ("guid", JString "g1");
           ("details", JString "d1"); ("timestamp", JString "t1");
           ("podName", JString "frontend-pod")].

(** A payload without [action]. *)
Definition no_action : JSON :=
  JObject [("guid", JString "g1"); ("details", JString "d1");
           ("timestamp", JString "t1")].

(** 101 ingestion calls, one more than the buffer holds. *)
Definition burst : list (Ctx * JSON) := repeat (ctx0, tile_click) 101.

(** The state after one ingestion of [tile_click] on a fresh process. *)
Definition state1 : State := snd (handle pod0 ctx0 (POST_api_log tile_click) state0).

End Sample.

(** ** Counting the requests of a run *)

Module Census.
Import Js Backend.

(** The requests that move the counter: an ingestion whose payload the
    validator accepts, and /api/pod-guid. *)
Definition counted (q : Request) : bool :=
  match q with
  | POST_api_log payload =>
      match Zod.LogActionSchema payload with Some _ => true | None => false end
  | GET_api_pod_guid => true
  | _ => false
  end.

(** The requests that store an entry. *)
Definition stored (q : Request) : bool :=
  match q with
  | POST_api_log payload =>
      match Zod.LogActionSchema payload with Some _ => true | None => false end
  | _ => false
  end.

Definition how_many (f : Request -> bool) (qs : list (Ctx * Request)) : nat :=
  List.length (filter (fun cq => f (snd cq)) qs).

(** The members [LogActionSchema] requires. *)
Definition required : list string := ["action"; "guid"; "details"; "timestamp"].

(** The members [LogActionSchema] names. *)
Definition named : list string := required ++ ["podName"].

(** The number of pipe characters of a string. *)
Fixpoint pipes (s : string) : nat :=
  match s with
  | EmptyString => O
  | String c rest => ((if Ascii.eqb c pipe then 1 else 0) + pipes rest)%nat
  end.

End Census.

(** ** The page: tiles, their current fact, and the actions it logs *)

Module Frontend.
Import Js Backend.

(** [TileData], without [icon], which only the rendering uses. *)
Record TileData := {
  id : string;
  name : string;
  color : string;
  facts : list string
}.

Definition tiles : list TileData :=
  [ {| id := "leaf"; name := "Leaf";
       color := "bg-gradient-to-br from-green-400 to-green-600";
       facts := ["Leaves produce oxygen through photosynthesis";
                 "A single tree can have up to 100,000 leaves";
                 "Leaves change color due to chlorophyll breakdown"] |};
    {| id := "sky"; name := "Sky";
       color := "bg-gradient-to-br from-blue-400 to-blue-600";
       facts := ["The sky appears blue due to light scattering";
                 "Sunsets are red because of longer light wavelengths";
                 "The atmosphere extends up to 10,000 km above Earth"] |};
    {| id := "ocean"; name := "Ocean";
       color := "bg-gradient-to-br from-cyan-400 to-blue-700";
       facts := ["Oceans cover 71% of Earth's surface";
                 "The deepest ocean point is 36,000 feet down";
                 "Oceans contain 99% of Earth's living space"] |};
    {| id := "lightning"; name := "Lightning";
       color := "bg-gradient-to-br from-yellow-400 to-purple-600";
       facts := ["Lightning is 5x hotter than the sun's surface";
                 "Thunder is the sound of lightning expanding air";
                 "Lightning strikes Earth 100 times per second"] |};
    {| id := "mountain"; name := "Mountain";
       color := "bg-gradient-to-br from-gray-500 to-gray-800";
       facts := ["Mountains cover 25% of Earth's land surface";
                 "The tallest mountain is Mount Everest at 29,032 feet";
                 "Mountains create their own weather patterns"] |};
    {| id := "stars"; name := "Stars";
       color := "bg-gradient-to-br from-purple-500 to-indigo-800";
       facts := ["There are more stars than grains of sand on Earth";
                 "Our sun is a medium-sized yellow dwarf star";
                 "Stars are born in nebulae from gas and dust"] |} ].

(** A number that holds an integer or is [NaN] ([None]). *)
Definition Num := option Z.

(** [a % b] on integers: the remainder has the sign of [a]; [NaN] when [b]
    is zero. *)
Definition rem (a b : Z) : Num := if b =? 0 then None else Some (Z.rem a b).

(** [x + 1] *)
Definition succ (x : Num) : Num := option_map (fun n => n + 1) x.

(** [String(x)], as a template literal renders a number. *)
Definition Num_toString (x : Num) : string :=
  match x with
  | Some n => toString n
  | None => "NaN"
  end.

(** [String(v)] for a member of a JSON response that may be [undefined]. *)
Definition String_of (v : option Value) : string :=
  match v with
  | Some (VString s) => s
  | Some (VNumber n) => toString n
  | Some (VBool true) => "true"
  | Some (VBool false) => "false"
  | Some (VStrings xs) => join "," xs
  | None => "undefined"
  end.

(** What [JSON.parse] reads back from what [JSON.stringify] wrote. *)
Definition to_json (v : Value) : JSON :=
  match v with
  | VString s => JString s
  | VNumber n => JNumber (inject_Z n)
  | VBool b => JBool b
  | VStrings xs => JArray (map JString xs)
  end.

(** The object [currentFacts]: its own properties in insertion order. A tile
    id is taken not to name a property of [Object.prototype], as none of
    the six does. *)
Definition Facts := list (string * Num).

(** [o[k]] *)
Fixpoint get (k : string) (o : Facts) : option Num :=
  match o with
  | [] => None
  | (k', v) :: rest => if String.eqb k' k then Some v else get k rest
  end.

(** [{...o, [k]: v}]: a key that is there keeps its place, a new one comes
    last. *)
Fixpoint set (k : string) (v : Num) (o : Facts) : Facts :=
  match o with
  | [] => [(k, v)]
  | (k', v') :: rest =>
      if String.eqb k' k then (k, v) :: rest else (k', v') :: set k v rest
  end.

(** [o[k] || 0]: [undefined], [NaN] and [0] all give [0]. *)
Definition or_zero (v : option Num) : Z :=
  match v with
  | Some (Some n) => n
  | _ => 0
  end.

(** The state of the [Home] component. [podGuid] holds whatever the
    backend's answer had under that name, [undefined] ([None]) included;
    [podInfo] is [null] ([None]) until the answer is in. *)
Record HomeState := {
  podGuid : option Value;
  podInfo : option (list (string * Value));
  currentFacts : Facts;
  loading : bool
}.

(** The [useState] initial values. *)
Definition initial : HomeState :=
  {| podGuid := Some (VString ""); podInfo := None; currentFacts := [];
     loading := true |}.

(** [logAction]: the body it posts to /api/log, as the server parses it.
    [JSON.stringify] leaves out a member that is [undefined]. A failure of
    the request is caught and only written to the console. *)
Definition logAction (now : Date) (action : string) (guid : option Value)
    (details : string) : JSON :=
  JObject ([("action", JString action)]
           ++ match guid with
              | Some v => [("guid", to_json v)]
              | None => []
              end
           ++ [("details", JString details);
               ("timestamp", JString (toISOString now));
               ("podName", JString "frontend-pod")]).

(** [handleTileClick]: the next state and the body posted. A click is taken
    to be handled once the page has rendered the state the click before it
    left, so that [currentFacts] in the handler and [prev] in the updater
    are the same object. *)
Definition handleTileClick (now : Date) (tile : TileData) (st : HomeState)
  : HomeState * JSON :=
  let currentIndex := or_zero (get (id tile) (currentFacts st)) in
  let nextIndex := rem (currentIndex + 1) (Z.of_nat (List.length (facts tile))) in
  ({| podGuid := podGuid st; podInfo := podInfo st;
      currentFacts := set (id tile) nextIndex (currentFacts st);
      loading := loading st |},
   logAction now "tile_click" (podGuid st)
     ("Clicked " ++ name tile ++ " tile - Fact " ++ Num_toString (succ nextIndex))).

(** [const factIndex = currentFacts[tile.id] || 0], the index of the fact a
    tile shows. *)
Definition factIndex (tile : TileData) (st : HomeState) : Z :=
  or_zero (get (id tile) (currentFacts st)).

(** [tile.facts[factIndex]], the fact a tile shows; [None] is [undefined]. *)
Definition shownFact (tile : TileData) (st : HomeState) : option string :=
  if factIndex tile st <? 0 then None
  else nth_error (facts tile) (Z.to_nat (factIndex tile st)).

(** [fetchPodGuid], run once when the page is mounted. [answer] is the
    object that [response.json()] gives, [None] when the request or the
    parsing fails; [fallback] feeds [crypto.randomUUID()] in that case. *)
Definition fetchPodGuid (now : Date) (fallback : Z)
    (answer : option (list (string * Value))) (st : HomeState)
  : HomeState * JSON :=
  match answer with
  | Some data =>
      ({| podGuid := field "podGuid" data; podInfo := Some data;
          currentFacts := currentFacts st; loading := false |},
       logAction now "session_start" (field "podGuid" data)
         ("Session started - Pod: " ++ String_of (field "podName" data)))
  | None =>
      let fallbackGuid := randomUUID fallback in
      ({| podGuid := Some (VString fallbackGuid); podInfo := podInfo st;
          currentFacts := currentFacts st; loading := false |},
       logAction now "session_start" (Some (VString fallbackGuid))
         "Session started - Fallback mode")
  end.

(** A series of clicks, each handled on the state the one before left. *)
Fixpoint clicks (cs : list (Date * TileData)) (st : HomeState) : HomeState :=
  match cs with
  | [] => st
  | (now, tile) :: rest => clicks rest (fst (handleTileClick now tile st))
  end.

(** Every tile of [ts] has its index within its facts. *)
Definition indices_in_range (ts : list TileData) (st : HomeState) : Prop :=
  forall t, In t ts -> 0 <= factIndex t st < Z.of_nat (List.length (facts t)).

(** Clicks on one tile at the given times. *)
Definition on_tile (tile : TileData) (nows : list Date) : list (Date * TileData) :=
  map (fun now => (now, tile)) nows.

End Frontend.

(** ** More sample data *)

Module Scene.
Import Js Backend.

(** The state of a process whose buffer has just become full. *)
Definition full : State :=
  snd (run Sample.pod0 (Reference.ingestion (repeat (Sample.ctx0, Sample.tile_click) 100))
         Sample.state0).

(** The click of [Sample.tile_click], sent from another session later on. *)
Definition tile_click_elsewhere : JSON :=
  JObject [("action", JString "tile_click"); ("guid", JString "another");
           ("details", JString "d1"); ("timestamp", JString "later");
           ("podName", JString "frontend-pod")].

(** A payload whose [podName] is [null]. *)
Definition null_podName : JSON :=
  JObject [("action", JString "a"); ("guid", JString "g"); ("details", JString "d");
           ("timestamp", JString "t"); ("podName", JNull)].

(** The state of a fresh process after the 101 calls of [Sample.burst]. *)
Definition after_burst : State :=
  snd (run Sample.pod0 (Reference.ingestion Sample.burst) Sample.state0).

(** A visit: the page asks for the pod, one payload is rejected, two are
    stored, and the status is read. *)
Definition visit : list (Ctx * Request) :=
  [(Sample.ctx0, GET_api_pod_guid);
   (Sample.ctx0, POST_api_log Sample.no_action);
   (Sample.ctx0, POST_api_log Sample.tile_click);
   (Sample.ctx0, GET_api_logs_guid);
   (Sample.ctx0, POST_api_log Sample.tile_click_from_frontend);
   (Sample.ctx0, GET_api_pod_status)].

(** The first tile of the page, and the second. *)
Definition leaf : Frontend.TileData :=
  {| Frontend.id := "leaf"; Frontend.name := "Leaf";
     Frontend.color := "bg-gradient-to-br from-green-400 to-green-600";
     Frontend.facts := ["Leaves produce oxygen through photosynthesis";
                        "A single tree can have up to 100,000 leaves";
                        "Leaves change color due to chlorophyll breakdown"] |}.

Definition sky : Frontend.TileData :=
  {| Frontend.id := "sky"; Frontend.name := "Sky";
     Frontend.color := "bg-gradient-to-br from-blue-400 to-blue-600";
     Frontend.facts := ["The sky appears blue due to light scattering";
                        "Sunsets are red because of longer light wavelengths";
                        "The atmosphere extends up to 10,000 km above Earth"] |}.

(** The page once the worker of [Sample.pod0] has answered /api/pod-guid. *)
Definition loaded : Frontend.HomeState :=
  {| Frontend.podGuid := Some (VString (POD_GUID Sample.pod0));
     Frontend.podInfo := None;
     Frontend.currentFacts := [];
     Frontend.loading := false |}.

(** Clicks on the first tile, the second, and the first three times more. *)
Definition some_clicks : list (Date * Frontend.TileData) :=
  [(Sample.epoch, leaf); (Sample.epoch, sky); (Sample.epoch, leaf);
   (Sample.epoch, leaf); (Sample.epoch, leaf)].

End Scene.

(** ** Properties *)

Module Correctness.
Import Js Zod Backend Reference.

#[local] Open Scope nat_scope.

(** *** Strings *)

Section Strings.
Implicit Types (s t u : string) (a b : ascii).

Lemma append_assoc s t u : ((s ++ t) ++ u = s ++ (t ++ u))%string.
Proof. induction s as [| a s IH]; simpl; [reflexivity | now rewrite IH]. Qed.

Lemma length_append s t :
  String.length (s ++ t) = String.length s + String.length t.
Proof. induction s as [| a s IH]; simpl; [reflexivity | now rewrite IH]. Qed.

Lemma prefix_append s t : String.prefix s (s ++ t) = true.
Proof.
  induction s as [| a s IH]; simpl; [now destruct t |].
  destruct (ascii_dec a a) as [_ | Hne]; [exact IH | now elim Hne].
Qed.

Lemma includes_prefix sub s : String.prefix sub s = true -> includes sub s = true.
Proof. intros H. destruct s; simpl in *; now rewrite H. Qed.

Lemma includes_cons sub a s : includes sub s = true -> includes sub (String a s) = true.
Proof.
  intros H.
  change (includes sub (String a s))
    with (if String.prefix sub (String a s) then true else includes sub s).
  rewrite H. now destruct (String.prefix sub (String a s)).
Qed.

Lemma includes_append sub s t : includes sub (s ++ sub ++ t) = true.
Proof.
  induction s as [| a s IH].
  - apply includes_prefix. exact (prefix_append sub t).
  - apply includes_cons, IH.
Qed.

Lemma includes_suffix sub s : includes sub (s ++ sub) = true.
Proof.
  rewrite <- (includes_append sub s EmptyString).
  do 2 f_equal. induction sub as [| a sub IH]; simpl; [reflexivity | now rewrite <- IH].
Qed.

Lemma has_char_append a s t :
  has_char a (s ++ t) = has_char a s || has_char a t.
Proof.
  induction s as [| b s IH]; simpl; [reflexivity |].
  now rewrite IH, orb_assoc.
Qed.

Lemma includes_nonempty sub s :
  sub <> EmptyString -> includes sub s = true -> s <> EmptyString.
Proof. intros Hsub H ->. destruct sub; [now elim Hsub | discriminate H]. Qed.

(** A text without line feed is one line. *)
Lemma lines_one s : has_char LF s = false -> lines s = [s].
Proof.
  induction s as [| a s IH]; simpl; [reflexivity |].
  intros H. apply orb_false_elim in H as [Ha Hs].
  rewrite Ha, (IH Hs). reflexivity.
Qed.

(** What follows the last line feed of a text ends its last line. *)
Lemma lines_tail s t :
  has_char LF t = false ->
  exists ls l, lines (s ++ t) = (ls ++ [(l ++ t)%string])%list.
Proof.
  intros Ht. induction s as [| a s (ls & l & IH)]; simpl.
  - exists [], EmptyString. now apply lines_one.
  - rewrite IH. destruct (Ascii.eqb a LF).
    + now exists (EmptyString :: ls), l.
    + destruct ls as [| l0 ls]; simpl.
      * now exists [], (String a l).
      * now exists (String a l0 :: ls), l.
Qed.

Lemma replace_pipes_clean r s :
  has_char pipe r = false -> has_char pipe (replace_pipes r s) = false.
Proof.
  intros Hr. induction s as [| a s IH]; simpl; [reflexivity |].
  destruct (Ascii.eqb a pipe) eqn:Ha.
  - now rewrite has_char_append, Hr, IH.
  - simpl. now rewrite Ha, IH.
Qed.

Lemma string_of_uint_no_LF d :
  has_char LF (NilEmpty.string_of_uint d) = false.
Proof. induction d; simpl; auto. Qed.

(** A decimal numeral has no line feed in it. *)
Lemma toString_no_LF n : has_char LF (toString n) = false.
Proof.
  unfold toString.
  assert (H : forall d, has_char LF (NilZero.string_of_uint d) = false).
  { intros d. pose proof (string_of_uint_no_LF d) as H.
    destruct d; simpl in *; auto. }
  destruct (Z.to_int n); simpl; auto.
Qed.

Lemma length_randomUUID r : String.length (randomUUID r) = 36.
Proof. reflexivity. Qed.
End Strings.

(** Both sides of an equation between concatenations, brought to the same
    right-nested form. *)
Ltac reassoc := rewrite ?append_assoc; reflexivity.

(** *** The worker on sample requests *)

Example counter_saturates :
  incr 41 = 42%Z /\ incr (2 ^ 53 - 1) = (2 ^ 53)%Z /\ incr (2 ^ 53) = (2 ^ 53)%Z.
Proof. repeat split. Qed.

Example slice_last_sample :
  slice_last 2 [1; 2; 3] = [2; 3] /\ slice_last 5 [1; 2; 3] = [1; 2; 3].
Proof. split; reflexivity. Qed.

Example schema_sample :
  LogActionSchema Sample.tile_click_from_frontend
  = Some {| action := "tile_click"; guid := "g1"; details := "d1";
            timestamp := "t1"; podName := Some "frontend-pod" |}
  /\ LogActionSchema Sample.no_action = None
  /\ LogActionSchema (JObject [("action", JNumber 1); ("guid", JString "g1");
                               ("details", JString "d1"); ("timestamp", JString "t1")])
     = None
  /\ LogActionSchema (JArray []) = None.
Proof. repeat split. Qed.

Example guid_report_sample :
  option_map lines
    (response_text (fst (handle Sample.pod0 Sample.ctx0 GET_api_logs_guid Sample.state1)))
  = Some ["=== ClickBus Pod GUID Logs ===";
          "Pod: backend-pod";
          "GUID: 00000000-0000-4000-8000-000000000000";
          "Started: 1970-01-01T00:00:00.000Z";
          "Total Requests Processed: 1";
          "";
          "=== Recent Activity ===";
          "1970-01-01T00:00:00.000Z | Pod: backend-pod | GUID: 00000000-0000-4000-8000-000000000000 | Action: tile_click | Details: d1 | Req#: 1"].
Proof. reflexivity. Qed.

Example pod_guid_sample :
  handle Sample.pod0 Sample.ctx0 GET_api_pod_guid Sample.state1
  = (json 200 [("podGuid", VString "00000000-0000-4000-8000-000000000000");
               ("podName", VString "backend-pod");
               ("startTime", VString "1970-01-01T00:00:00.000Z");
               ("requestsHandled", VNumber 2);
               ("timestamp", VString "1970-01-01T00:00:00.000Z");
               ("uptime", VString "0 seconds")],
     {| podLogs := podLogs Sample.state1; requestCount := 2 |}).
Proof. reflexivity. Qed.

(** *** The capped buffer *)

Section Buffer.
Context {A : Type}.
Implicit Types (n : nat) (xs ys : list A).

Lemma length_slice_last n xs :
  List.length (slice_last n xs) = Nat.min n (List.length xs).
Proof. unfold slice_last. rewrite length_skipn. lia. Qed.

Lemma slice_last_short n xs :
  List.length xs <= n -> slice_last n xs = xs.
Proof.
  intros H. unfold slice_last.
  replace (List.length xs - n) with 0 by lia. reflexivity.
Qed.

Lemma slice_last_app_long n xs ys :
  n <= List.length ys -> slice_last n (xs ++ ys) = slice_last n ys.
Proof.
  intros H. unfold slice_last.
  rewrite skipn_app, length_app.
  rewrite (skipn_all2 xs) by lia. simpl. f_equal. lia.
Qed.

(** Truncating early loses nothing that a later truncation would keep. *)
Lemma slice_last_absorb n xs ys :
  slice_last n (slice_last n xs ++ ys) = slice_last n (xs ++ ys).
Proof.
  destruct (Nat.le_gt_cases (List.length xs) n) as [Hle | Hgt].
  - now rewrite (slice_last_short n xs Hle).
  - unfold slice_last.
    rewrite !skipn_app, !length_app, skipn_skipn, !length_skipn.
    f_equal; f_equal; lia.
Qed.
End Buffer.

Lemma push_capped_slice entry logs :
  push_capped entry logs = slice_last 100 (logs ++ [entry]).
Proof.
  unfold push_capped.
  destruct (Nat.ltb_spec 100 (List.length (logs ++ [entry]))) as [H | H].
  - reflexivity.
  - now rewrite slice_last_short.
Qed.

Lemma length_push_capped entry logs :
  List.length (push_capped entry logs) <= 100.
Proof. rewrite push_capped_slice, length_slice_last. lia. Qed.

(** *** What each route does to the state *)

Lemma incr_ge n : (n <= incr n)%Z.
Proof. unfold incr. destruct (n <? MAX_EXACT)%Z; lia. Qed.

Lemma handle_post_valid p c payload logData s :
  LogActionSchema payload = Some logData ->
  handle p c (POST_api_log payload) s = post_api_log p c logData s.
Proof. intros H. simpl. now rewrite H. Qed.

Lemma get_api_logs_guid_state p c s : snd (get_api_logs_guid p c s) = s.
Proof. unfold get_api_logs_guid. now destruct (_ =? 0). Qed.

Lemma get_api_logs_data_state p c s : snd (get_api_logs_data p c s) = s.
Proof. unfold get_api_logs_data. now destruct (_ =? 0). Qed.

(** No route lengthens the buffer past its cap. *)
Lemma handle_bound p c q s :
  List.length (podLogs s) <= 100 ->
  List.length (podLogs (snd (handle p c q s))) <= 100.
Proof.
  intros H. destruct q; simpl;
    rewrite ?get_api_logs_guid_state, ?get_api_logs_data_state; auto.
  destruct (LogActionSchema payload); simpl; auto using length_push_capped.
Qed.

Lemma run_cons p c q rest s :
  run p ((c, q) :: rest) s =
  (fst (handle p c q s) :: fst (run p rest (snd (handle p c q s))),
   snd (run p rest (snd (handle p c q s)))).
Proof.
  simpl. destruct (handle p c q s) as [r s1]. simpl.
  now destruct (run p rest s1).
Qed.

Lemma run_bound p qs : forall s,
  List.length (podLogs s) <= 100 ->
  List.length (podLogs (snd (run p qs s))) <= 100.
Proof.
  induction qs as [| [c q] rest IH]; intros s H.
  - exact H.
  - rewrite run_cons. simpl. apply IH. now apply handle_bound.
Qed.

(** The counter never goes down. *)
Lemma handle_counter_mono p c q s :
  (requestCount s <= requestCount (snd (handle p c q s)))%Z.
Proof.
  destruct q; simpl;
    rewrite ?get_api_logs_guid_state, ?get_api_logs_data_state;
    try apply incr_ge; try lia.
  destruct (LogActionSchema payload); simpl; [apply incr_ge | lia].
Qed.

Lemma run_counter_mono p qs : forall s,
  (requestCount s <= requestCount (snd (run p qs s)))%Z.
Proof.
  induction qs as [| [c q] rest IH]; intros s.
  - simpl. lia.
  - rewrite run_cons. simpl.
    etransitivity; [apply (handle_counter_mono p c q) | apply IH].
Qed.

(** C1. After the insertion of a valid payload, from any state whatever,
    the buffer holds at most 100 entries; the bound then survives every
    further request, and it holds in every state a process reaches from
    start-up. *)
Theorem buffer_at_most_100 p c payload logData s :
  LogActionSchema payload = Some logData ->
  let s1 := snd (handle p c (POST_api_log payload) s) in
  List.length (podLogs s1) <= 100
  /\ (forall qs, List.length (podLogs (snd (run p qs s1))) <= 100)
  /\ (forall c0 qs, List.length (podLogs (snd (lifetime c0 qs))) <= 100).
Proof.
  intros Hvalid s1.
  assert (H1 : List.length (podLogs s1) <= 100).
  { subst s1. rewrite (handle_post_valid _ _ _ _ _ Hvalid). simpl.
    apply length_push_capped. }
  split; [exact H1 | split].
  - intros qs. now apply run_bound.
  - intros c0 qs. unfold lifetime, boot. apply run_bound. simpl. lia.
Qed.

Lemma buffer_at_most_100_witness :
  LogActionSchema Sample.tile_click <> None
  /\ List.length (podLogs Sample.state1) <= 100.
Proof.
  split; [discriminate |].
  exact (proj1 (buffer_at_most_100 Sample.pod0 Sample.ctx0 Sample.tile_click _
                  Sample.state0 eq_refl)).
Defined.

(** *** Validation *)

Lemma schema_needs_action payload :
  member "action" payload = None -> LogActionSchema payload = None.
Proof.
  destruct payload; simpl; try reflexivity.
  intros H. now rewrite H.
Qed.

(** C5. A payload without an [action] member is answered with a client
    error (status 400) and leaves the state as it was: nothing is appended
    to the buffer and the counter keeps its value. *)
Theorem missing_action_rejected p c payload s :
  member "action" payload = None ->
  let (r, s1) := handle p c (POST_api_log payload) s in
  client_error r = true /\ status r = 400%Z
  /\ s1 = s /\ podLogs s1 = podLogs s /\ requestCount s1 = requestCount s.
Proof.
  intros H. simpl. rewrite (schema_needs_action _ H). now repeat split.
Qed.

Lemma missing_action_rejected_witness :
  member "action" Sample.no_action = None
  /\ fst (handle Sample.pod0 Sample.ctx0 (POST_api_log Sample.no_action) Sample.state1)
     = validation_failed
  /\ snd (handle Sample.pod0 Sample.ctx0 (POST_api_log Sample.no_action) Sample.state1)
     = Sample.state1.
Proof.
  pose proof (missing_action_rejected Sample.pod0 Sample.ctx0 Sample.no_action
                Sample.state1 eq_refl) as H.
  split; [reflexivity |].
  destruct (handle Sample.pod0 Sample.ctx0 (POST_api_log Sample.no_action) Sample.state1)
    as [r s1] eqn:E.
  destruct H as (_ & _ & Hs & _).
  split; [now inversion E | exact Hs].
Defined.

(** *** The empty buffer *)

(** C7. On an empty buffer each text route answers with its header followed
    by its placeholder sentence: the body is not empty and the placeholder
    stands in it. *)
Theorem empty_buffer_placeholder p c s :
  podLogs s = [] ->
  (exists body,
      fst (get_api_logs_guid p c s) = text 200 body
      /\ body = (guid_header p c s ++ "No activity logged yet on this pod.")%string
      /\ body <> EmptyString
      /\ includes "No activity logged yet on this pod." body = true)
  /\ (exists body,
      fst (get_api_logs_data p c s) = text 200 body
      /\ body = (data_header p c s ++ data_placeholder)%string
      /\ body <> EmptyString
      /\ includes "No user interactions logged yet on this pod." body = true).
Proof.
  intros Hempty. unfold get_api_logs_guid, get_api_logs_data.
  rewrite Hempty. simpl List.length. simpl Nat.eqb. cbv iota. split.
  - exists (guid_header p c s ++ guid_placeholder)%string.
    assert (Hin : includes guid_placeholder
                    (guid_header p c s ++ guid_placeholder) = true).
    { apply includes_suffix. }
    repeat split; auto.
    eapply includes_nonempty; [| exact Hin]. discriminate.
  - exists (data_header p c s ++ data_placeholder)%string.
    assert (Hin : includes "No user interactions logged yet on this pod."
                    (data_header p c s ++ data_placeholder) = true).
    { unfold data_placeholder. apply includes_append. }
    repeat split; auto.
    eapply includes_nonempty; [| exact Hin]. discriminate.
Qed.

Lemma empty_buffer_placeholder_witness :
  podLogs Sample.state0 = []
  /\ exists body,
      fst (get_api_logs_guid Sample.pod0 Sample.ctx0 Sample.state0) = text 200 body
      /\ body <> EmptyString.
Proof.
  split; [reflexivity |].
  destruct (proj1 (empty_buffer_placeholder Sample.pod0 Sample.ctx0 Sample.state0
                     eq_refl)) as (body & H1 & _ & H3 & _).
  now exists body.
Defined.

(** *** Frame conditions *)

(** C9. The two log views are read-only: the state after the request is the
    state before it. Over all the routes, the counter moves only in the
    ingestion handler, when the payload is valid, and in /api/pod-guid,
    and the buffer only in the ingestion handler. *)
Theorem log_views_read_only p c s :
  snd (handle p c GET_api_logs_guid s) = s
  /\ snd (handle p c GET_api_logs_data s) = s
  /\ forall q,
      let s1 := snd (handle p c q s) in
      match q with
      | POST_api_log payload =>
          match LogActionSchema payload with
          | Some logData =>
              requestCount s1 = incr (requestCount s)
              /\ podLogs s1
                 = push_capped (logEntry p c logData (incr (requestCount s))) (podLogs s)
          | None => s1 = s
          end
      | GET_api_pod_guid =>
          requestCount s1 = incr (requestCount s) /\ podLogs s1 = podLogs s
      | _ => s1 = s
      end.
Proof.
  split; [apply get_api_logs_guid_state |].
  split; [apply get_api_logs_data_state |].
  intros [payload | | | | | |]; simpl;
    auto using get_api_logs_guid_state, get_api_logs_data_state.
  destruct (LogActionSchema payload); simpl; auto.
Qed.

(** *** /api/pod-guid *)

(** C6. Of two calls to /api/pod-guid in one process, with any requests
    between them, the second answers with the same [podGuid] as the first
    and with a [requestsHandled] that is not smaller. *)
Theorem pod_guid_twice p c1 c2 between s :
  let (r1, s1) := handle p c1 GET_api_pod_guid s in
  let (r2, _) := handle p c2 GET_api_pod_guid (snd (run p between s1)) in
  exists g n1 n2,
    response_field "podGuid" r1 = Some (VString g)
    /\ response_field "podGuid" r2 = Some (VString g)
    /\ response_field "requestsHandled" r1 = Some (VNumber n1)
    /\ response_field "requestsHandled" r2 = Some (VNumber n2)
    /\ (n1 <= n2)%Z.
Proof.
  simpl.
  set (s1 := {| podLogs := podLogs s; requestCount := incr (requestCount s) |}).
  exists (POD_GUID p), (incr (requestCount s)),
         (incr (requestCount (snd (run p between s1)))).
  repeat split.
  etransitivity; [| apply incr_ge].
  exact (run_counter_mono p between s1).
Qed.

(** *** Ingestion as append-then-truncate *)

Lemma length_entries p calls : forall count,
  Forall valid_call calls ->
  List.length (entries p count calls) = List.length calls.
Proof.
  induction calls as [| [c payload] rest IH]; intros count Hall; [reflexivity |].
  inversion Hall as [| ? ? Hvalid Hrest]; subst. unfold valid_call in Hvalid.
  simpl in *. destruct (LogActionSchema payload); [| now elim Hvalid].
  simpl. now rewrite IH.
Qed.

(** From a state within the cap, a series of ingestion calls leaves the
    buffer that appending all the produced entries and truncating once
    would leave. *)
Lemma run_ingestion p calls : forall s,
  List.length (podLogs s) <= 100 ->
  podLogs (snd (run p (ingestion calls) s))
  = append_then_truncate 100 (podLogs s) (entries p (requestCount s) calls).
Proof.
  unfold append_then_truncate.
  induction calls as [| [c payload] rest IH]; intros s Hs.
  - simpl. rewrite app_nil_r. now rewrite slice_last_short.
  - unfold ingestion. rewrite map_cons, run_cons. fold (ingestion rest).
    cbn [fst snd]. rewrite IH by apply handle_bound, Hs.
    simpl. destruct (LogActionSchema payload) as [logData |]; simpl.
    + rewrite push_capped_slice, slice_last_absorb, <- app_assoc. reflexivity.
    + reflexivity.
Qed.

(** The same from any state at all, once one valid call has come in. *)
Lemma run_ingestion_any p c payload rest s :
  valid_call (c, payload) ->
  podLogs (snd (run p (ingestion ((c, payload) :: rest)) s))
  = append_then_truncate 100 (podLogs s)
      (entries p (requestCount s) ((c, payload) :: rest)).
Proof.
  intros Hvalid. unfold valid_call in Hvalid. cbn [snd] in Hvalid.
  unfold ingestion. rewrite map_cons, run_cons. fold (ingestion rest).
  cbn [fst snd].
  destruct (LogActionSchema payload) as [logData |] eqn:E; [| now elim Hvalid].
  rewrite run_ingestion.
  - unfold append_then_truncate. simpl. rewrite E. simpl.
    rewrite push_capped_slice, slice_last_absorb, <- app_assoc. reflexivity.
  - simpl. rewrite E. simpl. apply length_push_capped.
Qed.

(** C2, as the code has it. After more than 100 valid ingestion calls, from
    any state, the buffer is the result of append-then-truncate, which is
    exactly the last 100 of the entries those calls produced, in arrival
    order, the earlier ones being the only ones dropped; /api/logs/guid
    prints these 100 entries word for word after its header;
    /api/logs/data prints the same 100 in the same order after its own
    header, each with every pipe character replaced by a space followed by
    a dash. *)
Theorem last_100_in_arrival_order p calls s :
  Forall valid_call calls ->
  100 < List.length calls ->
  let arrived := entries p (requestCount s) calls in
  let s1 := snd (run p (ingestion calls) s) in
  let recent := skipn (List.length calls - 100) arrived in
  podLogs s1 = append_then_truncate 100 (podLogs s) arrived
  /\ podLogs s1 = recent
  /\ List.length recent = 100
  /\ arrived = (firstn (List.length calls - 100) arrived ++ recent)%list
  /\ forall c,
      fst (handle p c GET_api_logs_guid s1)
      = text 200 (guid_header p c s1 ++ join nl recent)
      /\ fst (handle p c GET_api_logs_data s1)
         = text 200 (data_header p c s1
                     ++ join nl (map (replace_pipes " -") recent)).
Proof.
  intros Hall Hlen arrived s1 recent.
  pose proof (length_entries p calls (requestCount s) Hall) as Harr.
  fold arrived in Harr.
  assert (Hbuf : podLogs s1 = append_then_truncate 100 (podLogs s) arrived).
  { subst s1 arrived. destruct calls as [| [c payload] rest]; [simpl in Hlen; lia |].
    apply run_ingestion_any. now inversion Hall. }
  assert (Hrecent : podLogs s1 = recent).
  { rewrite Hbuf. unfold append_then_truncate.
    rewrite slice_last_app_long by lia.
    unfold slice_last, recent. now rewrite Harr. }
  assert (Hsize : List.length recent = 100).
  { unfold recent. rewrite length_skipn. lia. }
  repeat split; auto.
  - unfold recent. now rewrite firstn_skipn.
  - simpl. unfold get_api_logs_guid. rewrite Hrecent, Hsize. reflexivity.
  - simpl. unfold get_api_logs_data. rewrite Hrecent, Hsize. reflexivity.
Qed.

Lemma last_100_in_arrival_order_witness :
  Forall valid_call Sample.burst
  /\ 100 < List.length Sample.burst
  /\ podLogs (snd (run Sample.pod0 (ingestion Sample.burst) Sample.state0))
     = skipn 1 (entries Sample.pod0 0 Sample.burst).
Proof.
  assert (Hall : Forall valid_call Sample.burst).
  { apply Forall_forall. intros x Hx. apply repeat_spec in Hx. subst x. discriminate. }
  assert (Hlen : 100 < List.length Sample.burst).
  { unfold Sample.burst. rewrite repeat_length. lia. }
  split; [exact Hall | split; [exact Hlen |]].
  exact (proj1 (proj2 (last_100_in_arrival_order Sample.pod0 Sample.burst
                         Sample.state0 Hall Hlen))).
Defined.

(** C2, as the specification words it, fails for /api/logs/data on a fresh
    process that has taken 101 valid ingestion calls: the buffer holds the
    100 most recent entries, but the body of the data report is not these
    entries joined under the header, and not one of them stands in it,
    since each has its pipes rewritten. *)
Lemma data_report_not_the_entries :
  Forall valid_call Sample.burst
  /\ 100 < List.length Sample.burst
  /\ podLogs Scene.after_burst = skipn 1 (entries Sample.pod0 0 Sample.burst)
  /\ fst (handle Sample.pod0 Sample.ctx0 GET_api_logs_data Scene.after_burst)
     <> text 200 (data_header Sample.pod0 Sample.ctx0 Scene.after_burst
                  ++ join nl (podLogs Scene.after_burst))
  /\ match response_text
             (fst (handle Sample.pod0 Sample.ctx0 GET_api_logs_data Scene.after_burst))
     with
     | Some body =>
         forallb (fun entry => negb (includes entry body)) (podLogs Scene.after_burst)
     | None => false
     end = true.
Proof.
  split.
  { apply Forall_forall. intros x Hx. apply repeat_spec in Hx. subst x. discriminate. }
  split.
  { unfold Sample.burst. rewrite repeat_length. lia. }
  split; [vm_compute; reflexivity |].
  split; [| vm_compute; reflexivity].
  intros H. apply (f_equal response_text) in H. vm_compute in H. discriminate H.
Qed.

(** *** The data report *)

Lemma has_char_join a sep xs :
  has_char a sep = false ->
  Forall (fun x => has_char a x = false) xs ->
  has_char a (join sep xs) = false.
Proof.
  intros Hsep Hall. unfold join.
  induction Hall as [| x xs Hx Hxs IH]; [reflexivity |].
  destruct xs as [| y ys]; [exact Hx |].
  change (String.concat sep (x :: y :: ys))
    with (x ++ sep ++ String.concat sep (y :: ys))%string.
  now rewrite !has_char_append, Hx, Hsep, IH.
Qed.

Lemma format_log_clean log : has_char pipe (format_log log) = false.
Proof. apply replace_pipes_clean. reflexivity. Qed.

(** C8, as the code has it. Under its header the data report prints, for a
    buffer that is not empty, every stored entry in order with each pipe
    character replaced by a space followed by a dash, the lines joined by
    line feeds; what stands under the header, placeholder included, has no
    pipe character in it. *)
Theorem data_report_replaces_pipes p c s :
  exists report,
    fst (get_api_logs_data p c s) = text 200 (data_header p c s ++ report)
    /\ has_char pipe report = false
    /\ (podLogs s <> [] ->
        report = join nl (map (replace_pipes " -") (podLogs s))
        /\ Forall (fun line => has_char pipe line = false)
             (map (replace_pipes " -") (podLogs s))).
Proof.
  assert (Hclean : Forall (fun line => has_char pipe line = false)
                     (map (replace_pipes " -") (podLogs s))).
  { apply Forall_forall. intros line Hin. apply in_map_iff in Hin as (log & <- & _).
    apply format_log_clean. }
  unfold get_api_logs_data. destruct (podLogs s) as [| log logs] eqn:E.
  - exists data_placeholder. repeat split; now auto.
  - exists (join nl (map format_log (log :: logs))). repeat split; auto.
    apply has_char_join; [reflexivity | exact Hclean].
Qed.

Lemma data_report_replaces_pipes_witness :
  podLogs Sample.state1 <> []
  /\ exists report,
      fst (get_api_logs_data Sample.pod0 Sample.ctx0 Sample.state1)
      = text 200 (data_header Sample.pod0 Sample.ctx0 Sample.state1 ++ report)
      /\ report = join nl (map (replace_pipes " -") (podLogs Sample.state1)).
Proof.
  assert (Hne : podLogs Sample.state1 <> []) by discriminate.
  split; [exact Hne |].
  destruct (data_report_replaces_pipes Sample.pod0 Sample.ctx0 Sample.state1)
    as (report & H1 & _ & H3).
  exists report. split; [exact H1 | exact (proj1 (H3 Hne))].
Defined.

(** C8, as the specification words it, fails on the state a fresh process is
    in after one ingestion: the report is not the entries with a dash put
    where each pipe was, since the code puts a space and a dash there. *)
Lemma data_report_not_plain_dashes :
  podLogs Sample.state1
  = ["1970-01-01T00:00:00.000Z | Pod: backend-pod | GUID: 00000000-0000-4000-8000-000000000000 | Action: tile_click | Details: d1 | Req#: 1"]
  /\ map format_log (podLogs Sample.state1)
     = ["1970-01-01T00:00:00.000Z  - Pod: backend-pod  - GUID: 00000000-0000-4000-8000-000000000000  - Action: tile_click  - Details: d1  - Req#: 1"]
  /\ map pipes_to_dashes (podLogs Sample.state1)
     = ["1970-01-01T00:00:00.000Z - Pod: backend-pod - GUID: 00000000-0000-4000-8000-000000000000 - Action: tile_click - Details: d1 - Req#: 1"]
  /\ fst (get_api_logs_data Sample.pod0 Sample.ctx0 Sample.state1)
     <> text 200 (data_header Sample.pod0 Sample.ctx0 Sample.state1
                  ++ join nl (map pipes_to_dashes (podLogs Sample.state1))).
Proof.
  split; [reflexivity |]. split; [reflexivity |]. split; [reflexivity |].
  intros H. apply (f_equal response_text) in H. vm_compute in H. discriminate H.
Qed.

(** *** The client's [podName] *)

Lemma prop_filter_other k k' ms :
  k <> k' ->
  prop k (filter (fun kv => negb (String.eqb (fst kv) k')) ms) = prop k ms.
Proof.
  intros Hne. induction ms as [| [k0 v] rest IH]; [reflexivity |].
  simpl. destruct (String.eqb_spec k0 k') as [-> | Hk0]; simpl.
  - rewrite IH. destruct (prop k rest); [reflexivity |].
    destruct (String.eqb_spec k' k) as [-> | _]; [now elim Hne | reflexivity].
  - now rewrite IH.
Qed.

(** The members the schema requires are those of the payload without its
    [podName]. *)
Lemma member_without_podName k j :
  k <> "podName"%string -> member k (without "podName" j) = member k j.
Proof. intros Hne. destruct j; simpl; auto using prop_filter_other. Qed.

Lemma schema_members j logData :
  LogActionSchema j = Some logData ->
  member "action" j = Some (JString (action logData))
  /\ member "details" j = Some (JString (details logData)).
Proof.
  destruct j as [| | | | | ms]; try discriminate. simpl.
  destruct (prop "action" ms) as [[| | | a | |] |]; try discriminate.
  destruct (prop "guid" ms) as [[| | | g | |] |]; try discriminate.
  destruct (prop "details" ms) as [[| | | d | |] |]; try discriminate.
  destruct (prop "timestamp" ms) as [[| | | t | |] |]; try discriminate.
  destruct (prop "podName" ms) as [[| | | n | |] |]; try discriminate;
    simpl; intros [= <-]; simpl; auto.
Qed.

(** C10. Two valid payloads that differ in nothing but [podName] (its value,
    or whether it is there) are handled alike from the same state and in the
    same context: same response, same buffer, same counter. The pod name in
    the stored entry is the one of the bindings. *)
Theorem client_podName_ignored p c s j1 j2 d1 d2 :
  LogActionSchema j1 = Some d1 ->
  LogActionSchema j2 = Some d2 ->
  without "podName" j1 = without "podName" j2 ->
  handle p c (POST_api_log j1) s = handle p c (POST_api_log j2) s
  /\ podLogs (snd (handle p c (POST_api_log j1) s))
     = push_capped
         (toISOString (new_Date c) ++ " | Pod: " ++ or_default (POD_NAME (env c)) "backend-pod"
          ++ " | GUID: " ++ POD_GUID p ++ " | Action: " ++ action d1
          ++ " | Details: " ++ details d1
          ++ " | Req#: " ++ toString (incr (requestCount s)))%string
         (podLogs s).
Proof.
  intros H1 H2 Hsame.
  rewrite (handle_post_valid _ _ _ _ _ H1), (handle_post_valid _ _ _ _ _ H2).
  destruct (schema_members _ _ H1) as [Ha1 Hd1].
  destruct (schema_members _ _ H2) as [Ha2 Hd2].
  assert (Ha : action d1 = action d2).
  { rewrite <- (member_without_podName "action" j1) in Ha1 by discriminate.
    rewrite <- (member_without_podName "action" j2) in Ha2 by discriminate.
    rewrite Hsame in Ha1. congruence. }
  assert (Hd : details d1 = details d2).
  { rewrite <- (member_without_podName "details" j1) in Hd1 by discriminate.
    rewrite <- (member_without_podName "details" j2) in Hd2 by discriminate.
    rewrite Hsame in Hd1. congruence. }
  split; [| reflexivity].
  unfold post_api_log, logEntry. now rewrite Ha, Hd.
Qed.

Lemma client_podName_ignored_witness :
  without "podName" Sample.tile_click = without "podName" Sample.tile_click_from_frontend
  /\ handle Sample.pod0 Sample.ctx0 (POST_api_log Sample.tile_click) Sample.state0
     = handle Sample.pod0 Sample.ctx0 (POST_api_log Sample.tile_click_from_frontend)
         Sample.state0.
Proof.
  split; [reflexivity |].
  exact (proj1 (client_podName_ignored Sample.pod0 Sample.ctx0 Sample.state0
                  Sample.tile_click Sample.tile_click_from_frontend _ _
                  eq_refl eq_refl eq_refl)).
Defined.

(** *** The identity token *)

Lemma guid_report_carries p c s rest :
  includes ("GUID: " ++ POD_GUID p ++ nl) (guid_header p c s ++ rest) = true.
Proof.
  replace (guid_header p c s ++ rest)%string
    with (("=== ClickBus Pod GUID Logs ===" ++ nl ++ "Pod: " ++ pod_name (env c) ++ nl)
          ++ ("GUID: " ++ POD_GUID p ++ nl)
          ++ ("Started: " ++ toISOString (POD_START_TIME p) ++ nl
              ++ "Total Requests Processed: " ++ toString (requestCount s) ++ nl ++ nl
              ++ "=== Recent Activity ===" ++ nl ++ rest))%string
    by (unfold guid_header; reassoc).
  apply includes_append.
Qed.

Lemma data_report_carries p c s rest :
  includes ("GUID: " ++ POD_GUID p ++ nl) (data_header p c s ++ rest) = true.
Proof.
  replace (data_header p c s ++ rest)%string
    with (("=== ClickBus Data Activity Log ===" ++ nl
           ++ "Pod Name: " ++ pod_name (env c) ++ nl ++ "Pod ")
          ++ ("GUID: " ++ POD_GUID p ++ nl)
          ++ ("Uptime: " ++ toISOString (POD_START_TIME p) ++ nl
              ++ "Requests Handled: " ++ toString (requestCount s) ++ nl ++ nl
              ++ rest))%string
    by (unfold data_header; reassoc).
  apply includes_append.
Qed.

(** Every route but the ingestion one answers with the pod's token. *)
Lemma handle_carries p c q s :
  reports_identity q = true ->
  carries_token (POD_GUID p) (fst (handle p c q s)) = true.
Proof.
  destruct q; try discriminate; intros _; simpl.
  - unfold get_api_logs_guid. destruct (_ =? 0); apply guid_report_carries.
  - unfold get_api_logs_data. destruct (_ =? 0); apply data_report_carries.
  - apply String.eqb_refl.
  - apply String.eqb_refl.
  - apply String.eqb_refl.
  - apply String.eqb_refl.
Qed.

Lemma run_carries p qs : forall s i c q r,
  nth_error qs i = Some (c, q) ->
  nth_error (fst (run p qs s)) i = Some r ->
  reports_identity q = true ->
  carries_token (POD_GUID p) r = true.
Proof.
  induction qs as [| [c0 q0] rest IH]; intros s i c q r Hq Hr Hid.
  - now destruct i.
  - rewrite run_cons in Hr. cbn [fst] in Hr. destruct i as [| i]; simpl in Hq, Hr.
    + injection Hq as <- <-. injection Hr as <-. now apply handle_carries.
    + eapply IH; eassumption.
Qed.

(** C3. In one process lifetime the token is drawn once, at start-up, and
    no request handler can touch it; any two responses of routes that report
    the identity, text or JSON, carry that same token. *)
Theorem identity_token_stable c0 qs i j ci qi cj qj ri rj :
  nth_error qs i = Some (ci, qi) ->
  nth_error qs j = Some (cj, qj) ->
  nth_error (fst (lifetime c0 qs)) i = Some ri ->
  nth_error (fst (lifetime c0 qs)) j = Some rj ->
  reports_identity qi = true ->
  reports_identity qj = true ->
  let token := POD_GUID (fst (boot c0)) in
  token = randomUUID (random c0)
  /\ carries_token token ri = true
  /\ carries_token token rj = true.
Proof.
  intros Hqi Hqj Hri Hrj Hi Hj token.
  unfold lifetime, boot in Hri, Hrj. cbv beta iota in Hri, Hrj.
  split; [reflexivity |].
  split.
  - exact (run_carries _ qs _ i ci qi ri Hqi Hri Hi).
  - exact (run_carries _ qs _ j cj qj rj Hqj Hrj Hj).
Qed.

Lemma identity_token_stable_witness :
  carries_token "00000000-0000-4000-8000-000000000000"
    (fst (handle Sample.pod0 Sample.ctx0 GET_api_logs_data Sample.state0)) = true
  /\ carries_token "00000000-0000-4000-8000-000000000000"
       (fst (handle Sample.pod0 Sample.ctx0 GET_api_health Sample.state1)) = true.
Proof.
  pose proof (identity_token_stable Sample.ctx0
                [(Sample.ctx0, GET_api_logs_data);
                 (Sample.ctx0, POST_api_log Sample.tile_click);
                 (Sample.ctx0, GET_api_health)]
                0 2 _ _ _ _ _ _ eq_refl eq_refl eq_refl eq_refl eq_refl eq_refl)
    as (_ & H1 & H2).
  split; [exact H1 | exact H2].
Defined.

(** *** The tile click scenario *)

(** The newest entry closes the buffer ... *)
Lemma push_capped_last entry logs :
  exists older, push_capped entry logs = (older ++ [entry])%list.
Proof.
  rewrite push_capped_slice. unfold slice_last.
  rewrite skipn_app, length_app. simpl List.length.
  replace (List.length logs + 1 - 100 - List.length logs) with 0 by lia.
  now exists (skipn (List.length logs + 1 - 100) logs).
Qed.

(** ... and so closes the joined text. *)
Lemma join_last sep entry older :
  exists text, join sep (older ++ [entry]) = (text ++ entry)%string.
Proof.
  unfold join. induction older as [| x older (text & IH)].
  - now exists EmptyString.
  - exists (x ++ sep ++ text)%string. simpl app.
    destruct (older ++ [entry])%list as [| y ys] eqn:E.
    + now destruct older.
    + change (String.concat sep (x :: y :: ys))
        with (x ++ sep ++ String.concat sep (y :: ys))%string.
      rewrite IH. reassoc.
Qed.

(** C4. Posting [{action:"tile_click", guid:"g1", details:"d1",
    timestamp:"t1"}], in any state and context, is answered with status 200,
    [success: true] and a [logId] of 36 characters; the GUID-log fetch that
    follows has a line in which both [Action: tile_click] and [Details: d1]
    stand. *)
Theorem tile_click_is_logged p c c' s :
  let (r, s1) := handle p c (POST_api_log Sample.tile_click) s in
  status r = 200%Z
  /\ response_field "success" r = Some (VBool true)
  /\ (exists logId,
        response_field "logId" r = Some (VString logId)
        /\ logId <> EmptyString /\ String.length logId = 36)
  /\ exists body line,
        fst (handle p c' GET_api_logs_guid s1) = text 200 body
        /\ In line (lines body)
        /\ includes "Action: tile_click" line = true
        /\ includes "Details: d1" line = true.
Proof.
  simpl.
  split; [reflexivity |]. split; [reflexivity |]. split.
  { exists (randomUUID (random c)).
    split; [reflexivity |]. split; [| apply length_randomUUID].
    intros H. pose proof (length_randomUUID (random c)) as L.
    rewrite H in L. discriminate L. }
  set (n := incr (requestCount s)).
  set (logData := {| action := "tile_click"; guid := "g1"; details := "d1";
                     timestamp := "t1"; podName := None |}).
  set (s1 := {| podLogs := push_capped (logEntry p c logData n) (podLogs s);
                requestCount := n |}).
  pose (tail := ("Action: tile_click | Details: d1 | Req#: " ++ toString n)%string).
  destruct (push_capped_last (logEntry p c logData n) (podLogs s)) as [older Hlast].
  destruct (join_last nl (logEntry p c logData n) older) as [joined Hjoin].
  assert (Hbody : fst (get_api_logs_guid p c' s1)
                  = text 200 ((guid_header p c' s1 ++ joined
                               ++ toISOString (new_Date c) ++ " | Pod: "
                               ++ pod_name (env c) ++ " | GUID: " ++ POD_GUID p
                               ++ " | ") ++ tail)).
  { unfold get_api_logs_guid. simpl podLogs. rewrite Hlast, length_app.
    simpl List.length. replace (List.length older + 1) with (S (List.length older)) by lia.
    simpl Nat.eqb. cbv iota. cbn [fst]. rewrite Hjoin.
    f_equal. unfold logEntry, tail. simpl action. simpl details. reassoc. }
  assert (Htail : has_char LF tail = false).
  { unfold tail. now rewrite has_char_append, toString_no_LF. }
  destruct (lines_tail (guid_header p c' s1 ++ joined ++ toISOString (new_Date c)
                        ++ " | Pod: " ++ pod_name (env c) ++ " | GUID: "
                        ++ POD_GUID p ++ " | ") tail Htail) as (ls & l & Hlines).
  eexists. exists (l ++ tail)%string.
  split; [exact Hbody |]. split.
  - rewrite Hlines. apply in_or_app. right. now left.
  - split.
    + exact (includes_append "Action: tile_click" l
               (" | Details: d1 | Req#: " ++ toString n)).
    + replace (l ++ tail)%string
        with ((l ++ "Action: tile_click | ") ++ "Details: d1"
              ++ " | Req#: " ++ toString n)%string
        by (unfold tail; rewrite append_assoc; reflexivity).
      apply includes_append.
Qed.

End Correctness.

(** ** Further properties of the worker *)

Module WorkerFacts.
Import Js Zod Backend Reference Census Correctness.

#[local] Open Scope nat_scope.

(** *** Insertion, below and at capacity *)

(** X1. While the buffer holds fewer than 100 entries, the insertion of a
    valid payload appends its entry and loses nothing. *)
Theorem insertion_below_capacity p c payload logData s :
  LogActionSchema payload = Some logData ->
  List.length (podLogs s) < 100 ->
  podLogs (snd (handle p c (POST_api_log payload) s))
  = (podLogs s ++ [logEntry p c logData (incr (requestCount s))])%list.
Proof.
  intros Hvalid Hlen. rewrite (handle_post_valid _ _ _ _ _ Hvalid). simpl.
  rewrite push_capped_slice. apply slice_last_short.
  rewrite length_app. simpl. lia.
Qed.

Lemma insertion_below_capacity_witness :
  LogActionSchema Sample.tile_click <> None
  /\ List.length (podLogs Sample.state1) < 100
  /\ List.length (podLogs (snd (handle Sample.pod0 Sample.ctx0
                                  (POST_api_log Sample.tile_click) Sample.state1))) = 2.
Proof.
  split; [discriminate |].
  assert (Hlen : List.length (podLogs Sample.state1) < 100) by (simpl; lia).
  split; [exact Hlen |].
  rewrite (insertion_below_capacity Sample.pod0 Sample.ctx0 Sample.tile_click _
             Sample.state1 eq_refl Hlen).
  reflexivity.
Defined.

(** X2. When the buffer holds exactly 100 entries, the insertion of a valid
    payload drops the oldest entry, keeps the other 99 in their order and
    puts the new entry last; the buffer holds 100 entries again. *)
Theorem insertion_at_capacity p c payload logData s :
  LogActionSchema payload = Some logData ->
  List.length (podLogs s) = 100 ->
  let s1 := snd (handle p c (POST_api_log payload) s) in
  exists oldest kept,
    podLogs s = oldest :: kept
    /\ podLogs s1 = (kept ++ [logEntry p c logData (incr (requestCount s))])%list
    /\ List.length (podLogs s1) = 100.
Proof.
  intros Hvalid Hlen s1. subst s1.
  rewrite (handle_post_valid _ _ _ _ _ Hvalid). simpl.
  destruct (podLogs s) as [| oldest kept] eqn:E; [discriminate Hlen |].
  exists oldest, kept. split; [reflexivity |].
  simpl in Hlen. injection Hlen as Hkept.
  assert (Hpush : push_capped (logEntry p c logData (incr (requestCount s)))
                    (oldest :: kept)
                  = (kept ++ [logEntry p c logData (incr (requestCount s))])%list).
  { rewrite push_capped_slice. unfold slice_last.
    simpl List.length. rewrite length_app, Hkept. simpl List.length.
    reflexivity. }
  rewrite Hpush. split; [reflexivity |].
  rewrite length_app, Hkept. reflexivity.
Qed.

Lemma insertion_at_capacity_witness :
  LogActionSchema Sample.tile_click <> None
  /\ List.length (podLogs Scene.full) = 100
  /\ List.length (podLogs (snd (handle Sample.pod0 Sample.ctx0
                                  (POST_api_log Sample.tile_click) Scene.full))) = 100.
Proof.
  split; [discriminate |].
  assert (Hlen : List.length (podLogs Scene.full) = 100) by (vm_compute; reflexivity).
  split; [exact Hlen |].
  destruct (insertion_at_capacity Sample.pod0 Sample.ctx0 Sample.tile_click _
              Scene.full eq_refl Hlen) as (oldest & kept & _ & _ & H).
  exact H.
Defined.

(** *** What a process has counted and stored *)

Lemma handle_counts p c q s :
  requestCount (snd (handle p c q s))
  = if counted q then incr (requestCount s) else requestCount s.
Proof.
  destruct q; simpl;
    rewrite ?get_api_logs_guid_state, ?get_api_logs_data_state; try reflexivity.
  now destruct (LogActionSchema payload).
Qed.

Lemma handle_stores p c q s :
  List.length (podLogs s) <= 100 ->
  List.length (podLogs (snd (handle p c q s)))
  = if stored q then Nat.min (List.length (podLogs s) + 1) 100
    else List.length (podLogs s).
Proof.
  intros Hs. destruct q; simpl;
    rewrite ?get_api_logs_guid_state, ?get_api_logs_data_state; try reflexivity.
  destruct (LogActionSchema payload); cbn [snd post_api_log podLogs]; [| reflexivity].
  rewrite push_capped_slice, length_slice_last, length_app. cbn [List.length]. lia.
Qed.

Lemma how_many_cons f c q rest :
  how_many f ((c, q) :: rest) = (if f q then 1 else 0) + how_many f rest.
Proof. unfold how_many. simpl. now destruct (f q). Qed.

Lemma run_counts p qs : forall s,
  (0 <= requestCount s <= MAX_EXACT)%Z ->
  requestCount (snd (run p qs s))
  = Z.min (requestCount s + Z.of_nat (how_many counted qs)) MAX_EXACT.
Proof.
  induction qs as [| [c q] rest IH]; intros s Hs.
  - simpl. lia.
  - rewrite run_cons, how_many_cons. cbn [snd].
    assert (Hq : requestCount (snd (handle p c q s))
                 = (requestCount s + (if counted q then
                      if (requestCount s <? MAX_EXACT)%Z then 1 else 0 else 0))%Z).
    { rewrite handle_counts. unfold incr.
      destruct (counted q); destruct (requestCount s <? MAX_EXACT)%Z; lia. }
    rewrite IH; rewrite Hq;
      destruct (counted q); destruct (Z.ltb_spec (requestCount s) MAX_EXACT);
      cbv iota; lia.
Qed.

Lemma run_stores p qs : forall s,
  List.length (podLogs s) <= 100 ->
  List.length (podLogs (snd (run p qs s)))
  = Nat.min (List.length (podLogs s) + how_many stored qs) 100.
Proof.
  induction qs as [| [c q] rest IH]; intros s Hs.
  - change (how_many stored []) with 0. cbn [run snd]. lia.
  - rewrite run_cons, how_many_cons. cbn [snd].
    rewrite IH by now apply handle_bound.
    rewrite handle_stores by exact Hs. destruct (stored q); lia.
Qed.

(** X3. After any series of requests since start-up, the counter is the
    number of valid ingestions and /api/pod-guid calls among them (capped at
    2^53, where a JavaScript number stops counting), and the buffer holds
    as many entries as there were valid ingestions, capped at 100; rejected
    payloads and the other routes count for nothing. /api/pod-status
    reports these two numbers as [requestsProcessed] and [logEntries]. *)
Theorem lifetime_tally c0 qs c :
  let p := fst (boot c0) in
  let s := snd (lifetime c0 qs) in
  requestCount s = Z.min (Z.of_nat (how_many counted qs)) (2 ^ 53)
  /\ List.length (podLogs s) = Nat.min (how_many stored qs) 100
  /\ response_field "requestsProcessed" (fst (handle p c GET_api_pod_status s))
     = Some (VNumber (Z.min (Z.of_nat (how_many counted qs)) (2 ^ 53)))
  /\ response_field "logEntries" (fst (handle p c GET_api_pod_status s))
     = Some (VNumber (Z.of_nat (Nat.min (how_many stored qs) 100))).
Proof.
  intros p s.
  assert (Hc : requestCount s = Z.min (Z.of_nat (how_many counted qs)) (2 ^ 53)).
  { subst s. unfold lifetime, boot. rewrite run_counts; simpl requestCount.
    - reflexivity.
    - unfold MAX_EXACT. lia. }
  assert (Hl : List.length (podLogs s) = Nat.min (how_many stored qs) 100).
  { subst s. unfold lifetime, boot. rewrite run_stores; simpl; lia. }
  split; [exact Hc | split; [exact Hl |]].
  simpl. now rewrite Hc, Hl.
Qed.

Example tally_sample :
  requestCount (snd (lifetime Sample.ctx0 Scene.visit)) = 3%Z
  /\ List.length (podLogs (snd (lifetime Sample.ctx0 Scene.visit))) = 2.
Proof. split; reflexivity. Qed.

(** X4. The entry that a valid ingestion stores is the last of the buffer
    and ends with the request number the counter has reached; the GUID
    report that follows prints that same number as the total. *)
Theorem newest_entry_numbered p c c' payload logData s :
  LogActionSchema payload = Some logData ->
  let s1 := snd (handle p c (POST_api_log payload) s) in
  exists older front body,
    podLogs s1
    = (older ++ [(front ++ " | Req#: " ++ toString (requestCount s1))%string])%list
    /\ fst (handle p c' GET_api_logs_guid s1) = text 200 body
    /\ includes ("Total Requests Processed: " ++ toString (requestCount s1) ++ nl)
         body = true.
Proof.
  intros Hvalid s1. subst s1. rewrite (handle_post_valid _ _ _ _ _ Hvalid).
  cbn [post_api_log snd podLogs requestCount].
  set (n := incr (requestCount s)).
  destruct (push_capped_last (logEntry p c logData n) (podLogs s)) as [older Hlast].
  exists older,
    (toISOString (new_Date c) ++ " | Pod: " ++ pod_name (env c)
     ++ " | GUID: " ++ POD_GUID p ++ " | Action: " ++ action logData
     ++ " | Details: " ++ details logData)%string.
  set (s1 := {| podLogs := _; requestCount := n |}).
  assert (Hbody : exists rest,
             fst (handle p c' GET_api_logs_guid s1)
             = text 200 (guid_header p c' s1 ++ rest)).
  { simpl. unfold get_api_logs_guid. destruct (_ =? 0); eexists; reflexivity. }
  destruct Hbody as [rest Hbody].
  exists (guid_header p c' s1 ++ rest)%string.
  split; [| split; [exact Hbody |]].
  - rewrite Hlast. do 2 f_equal. unfold logEntry. reassoc.
  - replace (guid_header p c' s1 ++ rest)%string
      with (("=== ClickBus Pod GUID Logs ===" ++ nl ++ "Pod: " ++ pod_name (env c') ++ nl
             ++ "GUID: " ++ POD_GUID p ++ nl
             ++ "Started: " ++ toISOString (POD_START_TIME p) ++ nl)
            ++ ("Total Requests Processed: " ++ toString n ++ nl)
            ++ (nl ++ "=== Recent Activity ===" ++ nl ++ rest))%string
      by (unfold guid_header; reassoc).
    apply includes_append.
Qed.

Lemma newest_entry_numbered_witness :
  LogActionSchema Sample.tile_click <> None
  /\ exists older front,
      podLogs Sample.state1 = (older ++ [(front ++ " | Req#: 1")%string])%list.
Proof.
  split; [discriminate |].
  destruct (newest_entry_numbered Sample.pod0 Sample.ctx0 Sample.ctx0
              Sample.tile_click _ Sample.state0 eq_refl)
    as (older & front & _ & H & _).
  exists older, front. exact H.
Defined.

(** *** The reports, line by line *)

Lemma lines_nonempty s : lines s <> [].
Proof.
  destruct s as [| a s]; simpl; [discriminate |].
  destruct (Ascii.eqb a LF); [discriminate |].
  destruct (lines s); discriminate.
Qed.

(** A line feed between two texts separates the lines of the one from the
    lines of the other. *)
Lemma lines_append_nl s t : lines (s ++ nl ++ t) = (lines s ++ lines t)%list.
Proof.
  induction s as [| a s IH]; [reflexivity |].
  cbn [String.append lines]. rewrite IH.
  destruct (Ascii.eqb a LF); [reflexivity |].
  pose proof (lines_nonempty s) as Hs.
  destruct (lines s) as [| l ls]; [now elim Hs | reflexivity].
Qed.

Lemma lines_join xs :
  xs <> [] ->
  Forall (fun x => has_char LF x = false) xs ->
  lines (join nl xs) = xs.
Proof.
  intros Hne Hall. unfold join. induction Hall as [| x xs Hx Hxs IH]; [now elim Hne |].
  destruct xs as [| y ys]; [now apply lines_one |].
  change (String.concat nl (x :: y :: ys))
    with (x ++ nl ++ String.concat nl (y :: ys))%string.
  rewrite lines_append_nl, (lines_one x Hx), IH by discriminate. reflexivity.
Qed.


(** X5. Split at its line feeds, the GUID report of a buffer that is not
    empty is its seven header lines followed by the stored entries, one per
    line, word for word and in order; this needs the pod name, the token,
    the start time and the entries to be free of line feeds. *)
Theorem guid_report_lines p c s :
  has_char LF (pod_name (env c)) = false ->
  has_char LF (POD_GUID p) = false ->
  has_char LF (toISOString (POD_START_TIME p)) = false ->
  Forall (fun entry => has_char LF entry = false) (podLogs s) ->
  podLogs s <> [] ->
  exists body,
    fst (handle p c GET_api_logs_guid s) = text 200 body
    /\ lines body
       = ([ "=== ClickBus Pod GUID Logs ===";
            "Pod: " ++ pod_name (env c);
            "GUID: " ++ POD_GUID p;
            "Started: " ++ toISOString (POD_START_TIME p);
            "Total Requests Processed: " ++ toString (requestCount s);
            "";
            "=== Recent Activity ===" ]%string ++ podLogs s)%list.
Proof.
  intros Hname Hguid Hstart Hlogs Hne.
  exists (guid_header p c s ++ join nl (podLogs s))%string. split.
  - simpl. unfold get_api_logs_guid.
    destruct (podLogs s); [now elim Hne | reflexivity].
  - replace (guid_header p c s ++ join nl (podLogs s))%string
      with ("=== ClickBus Pod GUID Logs ===" ++ nl
            ++ ("Pod: " ++ pod_name (env c)) ++ nl
            ++ ("GUID: " ++ POD_GUID p) ++ nl
            ++ ("Started: " ++ toISOString (POD_START_TIME p)) ++ nl
            ++ ("Total Requests Processed: " ++ toString (requestCount s)) ++ nl
            ++ EmptyString ++ nl
            ++ "=== Recent Activity ===" ++ nl
            ++ join nl (podLogs s))%string
      by (unfold guid_header; reassoc).
    rewrite !lines_append_nl, (lines_join _ Hne Hlogs).
    rewrite !lines_one;
      rewrite ?has_char_append, ?Hname, ?Hguid, ?Hstart, ?toString_no_LF;
      reflexivity.
Qed.

Lemma guid_report_lines_witness :
  podLogs Sample.state1 <> []
  /\ exists body,
      fst (handle Sample.pod0 Sample.ctx0 GET_api_logs_guid Sample.state1) = text 200 body
      /\ List.length (lines body) = 8.
Proof.
  assert (Hne : podLogs Sample.state1 <> []) by discriminate.
  split; [exact Hne |].
  destruct (guid_report_lines Sample.pod0 Sample.ctx0 Sample.state1
              eq_refl eq_refl eq_refl) as (body & H1 & H2).
  - repeat constructor.
  - exact Hne.
  - exists body. split; [exact H1 |]. rewrite H2. reflexivity.
Defined.



(** X7. The stored entry has a line feed in it exactly when the clock
    text, the pod name, the token, or the client's [action] or [details]
    has one: the handler copies these texts as they are and adds none. *)
Theorem entry_line_feeds p c logData n :
  has_char LF (logEntry p c logData n)
  = has_char LF (toISOString (new_Date c))
    || has_char LF (pod_name (env c))
    || has_char LF (POD_GUID p)
    || has_char LF (action logData)
    || has_char LF (details logData).
Proof.
  unfold logEntry. rewrite !has_char_append, toString_no_LF.
  cbn [has_char Ascii.eqb Bool.eqb LF orb].
  rewrite !orb_false_r, !orb_assoc. reflexivity.
Qed.

(** *** The dash rendering *)

Lemma replace_pipes_fixed r s : has_char pipe s = false -> replace_pipes r s = s.
Proof.
  induction s as [| a s IH]; [reflexivity |].
  cbn [has_char replace_pipes]. intros H. apply orb_false_elim in H as [Ha Hs].
  now rewrite Ha, IH.
Qed.

(** X8. The dash rendering leaves a line unchanged exactly when the line has
    no pipe character, and rendering a rendered line changes nothing more. *)
Theorem format_log_idempotent log :
  format_log (format_log log) = format_log log
  /\ (format_log log = log <-> has_char pipe log = false).
Proof.
  split.
  - apply replace_pipes_fixed, format_log_clean.
  - split.
    + intros H. rewrite <- H. apply format_log_clean.
    + apply replace_pipes_fixed.
Qed.

(** X9. The dash rendering of a line is longer than the line by one
    character for each pipe character in it. *)
Theorem format_log_length log :
  String.length (format_log log) = String.length log + pipes log.
Proof.
  unfold format_log. induction log as [| a log IH]; [reflexivity |].
  cbn [replace_pipes pipes String.length]. destruct (Ascii.eqb a pipe).
  - cbn [String.append String.length]. rewrite IH. lia.
  - cbn [String.length]. rewrite IH. lia.
Qed.

(** *** The validator *)

Lemma schema_inv j d :
  LogActionSchema j = Some d ->
  member "action" j = Some (JString (action d))
  /\ member "guid" j = Some (JString (guid d))
  /\ member "details" j = Some (JString (details d))
  /\ member "timestamp" j = Some (JString (timestamp d))
  /\ member "podName" j = option_map JString (podName d).
Proof.
  destruct j as [| | | | | ms]; try discriminate. simpl.
  destruct (prop "action" ms) as [[| | | a | |] |]; try discriminate.
  destruct (prop "guid" ms) as [[| | | g | |] |]; try discriminate.
  destruct (prop "details" ms) as [[| | | dt | |] |]; try discriminate.
  destruct (prop "timestamp" ms) as [[| | | t | |] |]; try discriminate.
  destruct (prop "podName" ms) as [[| | | n | |] |]; try discriminate;
    simpl; intros [= <-]; simpl; auto.
Qed.

(** X10. The validator accepts a payload exactly when it is an object whose
    [action], [guid], [details] and [timestamp] members are strings and
    whose [podName] member is a string or is not there; the validated data
    are then those strings. *)
Theorem schema_characterised j d :
  LogActionSchema j = Some d
  <-> member "action" j = Some (JString (action d))
      /\ member "guid" j = Some (JString (guid d))
      /\ member "details" j = Some (JString (details d))
      /\ member "timestamp" j = Some (JString (timestamp d))
      /\ member "podName" j = option_map JString (podName d).
Proof.
  split; [apply schema_inv |].
  intros (Ha & Hg & Hd & Ht & Hp).
  destruct j as [| | | | | ms]; try discriminate Ha.
  simpl in *. rewrite Ha, Hg, Hd, Ht, Hp.
  destruct d as [a g dt t [n |]]; reflexivity.
Qed.

(** X11. A payload in which a required member is missing or is not a string,
    or in which [podName] is there without being a string, is answered by
    the validator, and the state stays as it was. *)
Theorem ill_formed_payload_rejected p c payload s :
  (exists k, In k required /\ forall str, member k payload <> Some (JString str))
  \/ (exists v, member "podName" payload = Some v /\ forall str, v <> JString str) ->
  handle p c (POST_api_log payload) s = (validation_failed, s).
Proof.
  intros H. simpl.
  destruct (LogActionSchema payload) as [d |] eqn:E; [exfalso | reflexivity].
  destruct (schema_inv _ _ E) as (Ha & Hg & Hd & Ht & Hp).
  destruct H as [(k & Hk & Hno) | (v & Hv & Hno)].
  - simpl in Hk.
    destruct Hk as [<- | [<- | [<- | [<- | []]]]]; eapply Hno; eassumption.
  - rewrite Hv in Hp. destruct (podName d) as [n |]; [| discriminate Hp].
    injection Hp as ->. now apply (Hno n).
Qed.

Lemma ill_formed_payload_rejected_witness :
  member "podName" Scene.null_podName = Some JNull
  /\ handle Sample.pod0 Sample.ctx0 (POST_api_log Scene.null_podName) Sample.state1
     = (validation_failed, Sample.state1).
Proof.
  split; [reflexivity |].
  apply ill_formed_payload_rejected. right. exists JNull.
  split; [reflexivity | discriminate].
Defined.

Lemma prop_skip k v k' before after :
  k <> k' ->
  prop k' (before ++ (k, v) :: after) = prop k' (before ++ after).
Proof.
  intros Hne. induction before as [| [k0 v0] before IH]; simpl.
  - destruct (prop k' after); [reflexivity |].
    destruct (String.eqb_spec k k'); [contradiction | reflexivity].
  - now rewrite IH.
Qed.

(** X12. A member whose name the schema does not list has no effect: with
    it or without it, wherever it stands in the object, the validator gives
    the same result and the request is handled alike. *)
Theorem unknown_member_ignored p c s k v before after :
  ~ In k named ->
  LogActionSchema (JObject (before ++ (k, v) :: after))
  = LogActionSchema (JObject (before ++ after))
  /\ handle p c (POST_api_log (JObject (before ++ (k, v) :: after))) s
     = handle p c (POST_api_log (JObject (before ++ after))) s.
Proof.
  intros Hk.
  assert (H : LogActionSchema (JObject (before ++ (k, v) :: after))
              = LogActionSchema (JObject (before ++ after))).
  { simpl. rewrite !(prop_skip k v); [reflexivity | ..];
      intros ->; apply Hk; simpl; tauto. }
  split; [exact H |]. unfold handle. now rewrite H.
Qed.

Lemma unknown_member_ignored_witness :
  ~ In "color"%string named
  /\ LogActionSchema (JObject [("action", JString "tile_click"); ("color", JBool true);
                               ("guid", JString "g1"); ("details", JString "d1");
                               ("timestamp", JString "t1")])
     = LogActionSchema Sample.tile_click.
Proof.
  assert (Hk : ~ In "color"%string named).
  { simpl. intros [H | [H | [H | [H | [H | []]]]]]; discriminate H. }
  split; [exact Hk |].
  exact (proj1 (unknown_member_ignored Sample.pod0 Sample.ctx0 Sample.state0
                  "color" (JBool true) [("action", JString "tile_click")]
                  [("guid", JString "g1"); ("details", JString "d1");
                   ("timestamp", JString "t1")] Hk)).
Defined.

(** X13. Of a valid payload the handler uses [action] and [details] and
    nothing else: two valid payloads that agree on these two members are
    handled alike, whatever their [guid], [timestamp] and [podName]. The
    token in the stored entry is the pod's, not the client's [guid]. *)
Theorem only_action_and_details_matter p c s j1 j2 d1 d2 :
  LogActionSchema j1 = Some d1 ->
  LogActionSchema j2 = Some d2 ->
  member "action" j1 = member "action" j2 ->
  member "details" j1 = member "details" j2 ->
  handle p c (POST_api_log j1) s = handle p c (POST_api_log j2) s.
Proof.
  intros H1 H2 Ha Hd.
  rewrite (handle_post_valid _ _ _ _ _ H1), (handle_post_valid _ _ _ _ _ H2).
  destruct (schema_members _ _ H1) as [Ha1 Hd1].
  destruct (schema_members _ _ H2) as [Ha2 Hd2].
  assert (Ea : action d1 = action d2) by congruence.
  assert (Ed : details d1 = details d2) by congruence.
  unfold post_api_log, logEntry. now rewrite Ea, Ed.
Qed.

Lemma only_action_and_details_matter_witness :
  member "guid" Sample.tile_click <> member "guid" Scene.tile_click_elsewhere
  /\ handle Sample.pod0 Sample.ctx0 (POST_api_log Sample.tile_click) Sample.state1
     = handle Sample.pod0 Sample.ctx0 (POST_api_log Scene.tile_click_elsewhere)
         Sample.state1.
Proof.
  split; [discriminate |].
  exact (only_action_and_details_matter Sample.pod0 Sample.ctx0 Sample.state1
           Sample.tile_click Scene.tile_click_elsewhere _ _
           eq_refl eq_refl eq_refl eq_refl).
Defined.

(** *** Pod name and uptime *)

(** X14. The pod name the worker reports is never empty: it is the
    [POD_NAME] binding when that is set to a text that is not empty, and
    [backend-pod] when the binding is missing or empty. *)
Theorem pod_name_never_empty e :
  pod_name e <> EmptyString
  /\ (forall n, POD_NAME e = Some n -> n <> EmptyString -> pod_name e = n)
  /\ (POD_NAME e = None \/ POD_NAME e = Some EmptyString ->
      pod_name e = "backend-pod"%string).
Proof.
  unfold pod_name, or_default. repeat split.
  - destruct (POD_NAME e) as [n |]; [| discriminate].
    destruct (String.eqb_spec n ""); [discriminate | assumption].
  - intros n -> Hn. destruct (String.eqb_spec n ""); [contradiction | reflexivity].
  - intros [-> | ->]; reflexivity.
Qed.

Lemma pod_name_never_empty_witness :
  pod_name {| POD_NAME := Some "clickbus-backend-7d9f"%string; POD_NAMESPACE := None;
              POD_IP := None; AZURE_SERVICE_BUS_CONNECTION_STRING := None |}
  = "clickbus-backend-7d9f"%string.
Proof.
  apply (proj1 (proj2 (pod_name_never_empty _))); [reflexivity | discriminate].
Defined.

(** X15. The uptime that /api/pod-status reports is the whole number of
    seconds between the start time and [Date.now()], rounded down; it is
    negative exactly when the clock reads earlier than the start time. *)
Theorem uptime_whole_seconds p c s :
  exists u,
    response_field "uptime" (fst (handle p c GET_api_pod_status s)) = Some (VNumber u)
    /\ (1000 * u <= Date_now c - getTime (POD_START_TIME p) < 1000 * u + 1000)%Z
    /\ ((u < 0)%Z <-> (Date_now c < getTime (POD_START_TIME p))%Z).
Proof.
  exists (uptime p c). split; [reflexivity |]. unfold uptime.
  pose proof (Z.div_mod (Date_now c - getTime (POD_START_TIME p)) 1000) as Hdm.
  pose proof (Z.mod_pos_bound (Date_now c - getTime (POD_START_TIME p)) 1000) as Hb.
  lia.
Qed.

End WorkerFacts.

(** ** Properties of the page *)

Module PageFacts.
Import Js Zod Backend Correctness Frontend.

(** *** The object of current facts *)

Lemma get_set_same k v o : get k (set k v o) = Some v.
Proof.
  induction o as [| [k0 v0] o IH]; simpl.
  - now rewrite String.eqb_refl.
  - destruct (String.eqb_spec k0 k) as [-> | Hne]; simpl.
    + now rewrite String.eqb_refl.
    + destruct (String.eqb_spec k0 k); [contradiction | exact IH].
Qed.

Lemma get_set_other k k' v o : k <> k' -> get k' (set k v o) = get k' o.
Proof.
  intros Hne. induction o as [| [k0 v0] o IH]; simpl.
  - destruct (String.eqb_spec k k'); [contradiction | reflexivity].
  - destruct (String.eqb_spec k0 k) as [-> | Hk0]; simpl.
    + destruct (String.eqb_spec k k'); [contradiction | reflexivity].
    + now rewrite IH.
Qed.

Lemma facts_length_pos tile :
  facts tile <> [] -> (0 < Z.of_nat (List.length (facts tile)))%Z.
Proof. destruct (facts tile); [contradiction | simpl; lia]. Qed.

(** One click moves the index of the clicked tile one step round. *)
Lemma click_index now tile st :
  facts tile <> [] ->
  (0 <= factIndex tile st)%Z ->
  get (id tile) (currentFacts (fst (handleTileClick now tile st)))
  = Some (Some ((factIndex tile st + 1) mod Z.of_nat (List.length (facts tile)))).
Proof.
  intros Hne Hidx. pose proof (facts_length_pos tile Hne) as Hlen.
  unfold handleTileClick. cbn [fst currentFacts]. rewrite get_set_same.
  unfold rem. fold (factIndex tile st).
  destruct (Z.eqb_spec (Z.of_nat (List.length (facts tile))) 0) as [E | _]; [lia |].
  rewrite Z.rem_mod_nonneg by lia. reflexivity.
Qed.

Lemma click_factIndex now tile st :
  facts tile <> [] ->
  (0 <= factIndex tile st)%Z ->
  factIndex tile (fst (handleTileClick now tile st))
  = ((factIndex tile st + 1) mod Z.of_nat (List.length (facts tile)))%Z.
Proof.
  intros Hne Hidx. unfold factIndex at 1. now rewrite click_index.
Qed.

Lemma click_other_index now tile other st :
  id tile <> id other ->
  factIndex other (fst (handleTileClick now tile st)) = factIndex other st.
Proof.
  intros Hne. unfold factIndex, handleTileClick. cbn [fst currentFacts].
  now rewrite get_set_other.
Qed.

Lemma details_of_logAction now a g d :
  member "details" (logAction now a g d) = Some (JString d).
Proof. destruct g; reflexivity. Qed.

(** *** A click *)

(** X16. A click on a tile that has facts, in a state where the tile's index
    is not negative, moves the tile to the next fact and from the last one
    back to the first: the new index is within the facts, the tile shows
    that fact, and the logged details name the fact by its number counted
    from 1. *)
Theorem click_shows_next_fact now tile st :
  facts tile <> [] ->
  (0 <= factIndex tile st)%Z ->
  let (st1, body) := handleTileClick now tile st in
  let n := ((factIndex tile st + 1) mod Z.of_nat (List.length (facts tile)))%Z in
  factIndex tile st1 = n
  /\ (0 <= n < Z.of_nat (List.length (facts tile)))%Z
  /\ (exists fact, shownFact tile st1 = Some fact
                   /\ nth_error (facts tile) (Z.to_nat n) = Some fact)
  /\ member "details" body
     = Some (JString ("Clicked " ++ name tile ++ " tile - Fact " ++ toString (n + 1))).
Proof.
  intros Hne Hidx.
  pose proof (click_factIndex now tile st Hne Hidx) as Hnext.
  pose proof (click_index now tile st Hne Hidx) as Hget.
  pose proof (facts_length_pos tile Hne) as Hlen.
  destruct (handleTileClick now tile st) as [st1 body] eqn:E.
  cbn [fst] in Hnext, Hget. intros n.
  assert (Hn : (0 <= n < Z.of_nat (List.length (facts tile)))%Z)
    by (apply Z.mod_pos_bound; lia).
  split; [exact Hnext | split; [exact Hn | split]].
  - unfold shownFact. rewrite Hnext. fold n.
    destruct (Z.ltb_spec n 0) as [Hneg | _]; [lia |].
    destruct (nth_error (facts tile) (Z.to_nat n)) as [fact |] eqn:Enth.
    + now exists fact.
    + apply nth_error_None in Enth. lia.
  - unfold handleTileClick in E. injection E as _ <-.
    rewrite details_of_logAction. unfold rem. fold (factIndex tile st).
    destruct (Z.eqb_spec (Z.of_nat (List.length (facts tile))) 0) as [E0 | _]; [lia |].
    rewrite Z.rem_mod_nonneg by lia. reflexivity.
Qed.

Example sample_tiles_on_page :
  nth_error tiles 0 = Some Scene.leaf /\ nth_error tiles 1 = Some Scene.sky.
Proof. split; reflexivity. Qed.

Lemma click_shows_next_fact_witness :
  facts Scene.leaf <> []
  /\ (0 <= factIndex Scene.leaf initial)%Z
  /\ shownFact Scene.leaf initial
     = Some "Leaves produce oxygen through photosynthesis"%string
  /\ shownFact Scene.leaf (fst (handleTileClick Sample.epoch Scene.leaf initial))
     = Some "A single tree can have up to 100,000 leaves"%string.
Proof.
  assert (Hne : facts Scene.leaf <> []) by discriminate.
  assert (Hidx : (0 <= factIndex Scene.leaf initial)%Z) by (vm_compute; discriminate).
  split; [exact Hne | split; [exact Hidx | split; [reflexivity |]]].
  pose proof (click_shows_next_fact Sample.epoch Scene.leaf initial Hne Hidx) as H.
  destruct (handleTileClick Sample.epoch Scene.leaf initial) as [st1 body] eqn:E.
  destruct H as (_ & _ & (fact & Hshown & Hnth) & _).
  cbn [fst]. rewrite Hshown. rewrite <- Hnth. reflexivity.
Defined.

(** *** Clicking round *)

Lemma clicks_same_tile tile nows : forall st,
  facts tile <> [] ->
  (0 <= factIndex tile st < Z.of_nat (List.length (facts tile)))%Z ->
  factIndex tile (clicks (on_tile tile nows) st)
  = ((factIndex tile st + Z.of_nat (List.length nows))
     mod Z.of_nat (List.length (facts tile)))%Z.
Proof.
  induction nows as [| now nows IH]; intros st Hne Hidx.
  - cbn [on_tile map clicks List.length]. rewrite Z.add_0_r, Z.mod_small; lia.
  - cbn [on_tile map clicks]. fold (on_tile tile nows).
    pose proof (click_factIndex now tile st Hne (proj1 Hidx)) as Hstep.
    pose proof (facts_length_pos tile Hne) as Hlen.
    rewrite IH; [| exact Hne | rewrite Hstep; apply Z.mod_pos_bound; lia].
    rewrite Hstep, Z.add_mod_idemp_l by lia.
    f_equal. cbn [List.length]. lia.
Qed.

(** X17. Clicks on one tile walk through its facts in a circle: after [k]
    clicks the index has moved on by [k] modulo the number of facts, so
    after as many clicks as the tile has facts it shows again the fact it
    showed before. *)
Theorem clicks_go_round tile nows st :
  facts tile <> [] ->
  (0 <= factIndex tile st < Z.of_nat (List.length (facts tile)))%Z ->
  let st1 := clicks (on_tile tile nows) st in
  factIndex tile st1
  = ((factIndex tile st + Z.of_nat (List.length nows))
     mod Z.of_nat (List.length (facts tile)))%Z
  /\ (List.length nows = List.length (facts tile) ->
      factIndex tile st1 = factIndex tile st
      /\ shownFact tile st1 = shownFact tile st).
Proof.
  intros Hne Hidx st1.
  pose proof (clicks_same_tile tile nows st Hne Hidx) as H. fold st1 in H.
  split; [exact H |]. intros Hk.
  assert (Hback : factIndex tile st1 = factIndex tile st).
  { rewrite H, Hk.
    rewrite <- (Z.mul_1_l (Z.of_nat (List.length (facts tile)))) at 1.
    rewrite Z.mod_add by lia. apply Z.mod_small. exact Hidx. }
  split; [exact Hback |]. unfold shownFact. now rewrite Hback.
Qed.

Lemma clicks_go_round_witness :
  facts Scene.leaf <> []
  /\ (0 <= factIndex Scene.leaf initial < 3)%Z
  /\ shownFact Scene.leaf
       (clicks (on_tile Scene.leaf [Sample.epoch; Sample.epoch; Sample.epoch]) initial)
     = shownFact Scene.leaf initial.
Proof.
  assert (Hne : facts Scene.leaf <> []) by discriminate.
  assert (Hidx : (0 <= factIndex Scene.leaf initial
                  < Z.of_nat (List.length (facts Scene.leaf)))%Z)
    by (vm_compute; split; [discriminate | reflexivity]).
  split; [exact Hne | split; [exact Hidx |]].
  exact (proj2 (proj2 (clicks_go_round Scene.leaf
                         [Sample.epoch; Sample.epoch; Sample.epoch] initial Hne Hidx)
                  eq_refl)).
Defined.

(** X18. A click on one tile leaves every tile with another id as it was,
    index and fact shown, and changes nothing else in the state of the
    page. *)
Theorem click_leaves_other_tiles now tile other st :
  id tile <> id other ->
  let st1 := fst (handleTileClick now tile st) in
  factIndex other st1 = factIndex other st
  /\ shownFact other st1 = shownFact other st
  /\ podGuid st1 = podGuid st
  /\ podInfo st1 = podInfo st
  /\ loading st1 = loading st.
Proof.
  intros Hne st1.
  pose proof (click_other_index now tile other st Hne) as H. fold st1 in H.
  split; [exact H |]. split; [unfold shownFact; now rewrite H |].
  now repeat split.
Qed.

Lemma click_leaves_other_tiles_witness :
  id Scene.leaf <> id Scene.sky
  /\ shownFact Scene.sky (fst (handleTileClick Sample.epoch Scene.leaf initial))
     = Some "The sky appears blue due to light scattering"%string.
Proof.
  assert (Hne : id Scene.leaf <> id Scene.sky) by discriminate.
  split; [exact Hne |].
  rewrite (proj1 (proj2 (click_leaves_other_tiles Sample.epoch Scene.leaf Scene.sky
                           initial Hne))).
  reflexivity.
Defined.

(** *** The page never runs out of facts *)

Lemma same_id_same_tile (ts : list TileData) :
  NoDup (map id ts) ->
  forall t u, In t ts -> In u ts -> id t = id u -> t = u.
Proof.
  induction ts as [| t0 ts IH]; intros Hnd t u Ht Hu Hid; [contradiction |].
  inversion Hnd as [| ? ? Hnotin Hnd']; subst.
  destruct Ht as [<- | Ht], Hu as [<- | Hu]; auto.
  - elim Hnotin. rewrite Hid. now apply in_map.
  - elim Hnotin. rewrite <- Hid. now apply in_map.
Qed.

Lemma click_keeps_range ts now tile st :
  NoDup (map id ts) ->
  Forall (fun t => facts t <> []) ts ->
  In tile ts ->
  indices_in_range ts st ->
  indices_in_range ts (fst (handleTileClick now tile st)).
Proof.
  intros Hnd Hfacts Htile Hinv t Ht.
  destruct (String.eqb_spec (id tile) (id t)) as [Heq | Hne].
  - assert (tile = t) by (eapply same_id_same_tile; eassumption). subst t.
    assert (Hne : facts tile <> []).
    { rewrite Forall_forall in Hfacts. now apply Hfacts. }
    rewrite click_factIndex; [| exact Hne | apply (Hinv tile Htile)].
    apply Z.mod_pos_bound. now apply facts_length_pos.
  - rewrite click_other_index by exact Hne. now apply Hinv.
Qed.

Lemma clicks_keep_range ts cs : forall st,
  NoDup (map id ts) ->
  Forall (fun t => facts t <> []) ts ->
  Forall (fun c => In (snd c) ts) cs ->
  indices_in_range ts st ->
  indices_in_range ts (clicks cs st).
Proof.
  induction cs as [| [now tile] cs IH]; intros st Hnd Hfacts Hcs Hinv; [exact Hinv |].
  inversion Hcs as [| ? ? Htile Hrest]; subst. cbn [clicks].
  apply IH; auto. now apply click_keeps_range.
Qed.

(** X19. On a page whose tiles have distinct ids and at least one fact each,
    and which starts with no current fact recorded, every tile shows one of
    its facts after any series of clicks on these tiles, and its index stays
    within its facts. *)
Theorem tiles_always_show_a_fact ts cs st :
  NoDup (map id ts) ->
  Forall (fun t => facts t <> []) ts ->
  Forall (fun c => In (snd c) ts) cs ->
  currentFacts st = [] ->
  forall t, In t ts ->
    (0 <= factIndex t (clicks cs st) < Z.of_nat (List.length (facts t)))%Z
    /\ exists fact, shownFact t (clicks cs st) = Some fact /\ In fact (facts t).
Proof.
  intros Hnd Hfacts Hcs Hempty t Ht.
  assert (Hinit : indices_in_range ts st).
  { intros u Hu. unfold factIndex. rewrite Hempty. cbn [get or_zero].
    rewrite Forall_forall in Hfacts. pose proof (facts_length_pos u (Hfacts u Hu)). lia. }
  pose proof (clicks_keep_range ts cs st Hnd Hfacts Hcs Hinit t Ht) as Hrange.
  split; [exact Hrange |].
  unfold shownFact. destruct (Z.ltb_spec (factIndex t (clicks cs st)) 0); [lia |].
  destruct (nth_error (facts t) (Z.to_nat (factIndex t (clicks cs st))))
    as [fact |] eqn:E.
  - exists fact. split; [reflexivity |]. eapply nth_error_In, E.
  - apply nth_error_None in E. lia.
Qed.

Lemma tiles_always_show_a_fact_witness :
  NoDup (map id tiles)
  /\ Forall (fun c => In (snd c) tiles) Scene.some_clicks
  /\ exists fact, shownFact Scene.leaf (clicks Scene.some_clicks initial) = Some fact.
Proof.
  assert (Hnd : NoDup (map id tiles)).
  { cbn [map tiles id].
    repeat (constructor;
            [cbn [In]; intros H;
             repeat (destruct H as [H | H]; [discriminate H |]); exact H |]).
    constructor. }
  assert (Hfacts : Forall (fun t => facts t <> []) tiles).
  { repeat (constructor; [discriminate |]). constructor. }
  assert (Hcs : Forall (fun c => In (snd c) tiles) Scene.some_clicks).
  { repeat (constructor; [cbn [snd]; unfold tiles; cbn [In]; auto 10 |]).
    constructor. }
  split; [exact Hnd | split; [exact Hcs |]].
  destruct (tiles_always_show_a_fact tiles Scene.some_clicks initial
              Hnd Hfacts Hcs eq_refl Scene.leaf (or_introl eq_refl))
    as (_ & fact & Hfact & _).
  now exists fact.
Defined.

(** *** The page and the worker *)

Lemma logAction_valid now a g d :
  LogActionSchema (logAction now a (Some (VString g)) d)
  = Some {| action := a; guid := g; details := d;
            timestamp := toISOString now; podName := Some "frontend-pod"%string |}.
Proof. reflexivity. Qed.

(** X20. When the page holds a token that is a string, the body a click
    posts passes the worker's validator, and any pod that receives it
    answers 200 and stores, as its newest entry, the line with the action
    [tile_click] and the details of the click under its own pod name and
    token; the token the page sent is not in the line unless it is that
    pod's. *)
Theorem click_is_logged now tile st g p c s :
  podGuid st = Some (VString g) ->
  let body := snd (handleTileClick now tile st) in
  let clicked := ("Clicked " ++ name tile ++ " tile - Fact "
                  ++ Num_toString
                       (succ (rem (factIndex tile st + 1)
                                (Z.of_nat (List.length (facts tile))))))%string in
  LogActionSchema body
  = Some {| action := "tile_click"; guid := g; details := clicked;
            timestamp := toISOString now; podName := Some "frontend-pod"%string |}
  /\ status (fst (handle p c (POST_api_log body) s)) = 200%Z
  /\ exists older,
      podLogs (snd (handle p c (POST_api_log body) s))
      = (older ++ [(toISOString (new_Date c) ++ " | Pod: " ++ pod_name (env c)
                    ++ " | GUID: " ++ POD_GUID p ++ " | Action: tile_click"
                    ++ " | Details: " ++ clicked
                    ++ " | Req#: " ++ toString (incr (requestCount s)))%string])%list.
Proof.
  intros Hg body clicked.
  assert (Hvalid : LogActionSchema body
                   = Some {| action := "tile_click"; guid := g; details := clicked;
                             timestamp := toISOString now;
                             podName := Some "frontend-pod"%string |}).
  { subst body. unfold handleTileClick. cbn [snd]. rewrite Hg.
    apply logAction_valid. }
  split; [exact Hvalid |].
  rewrite (handle_post_valid _ _ _ _ _ Hvalid).
  split; [reflexivity |].
  cbn [post_api_log snd podLogs].
  destruct (push_capped_last
              (logEntry p c {| action := "tile_click"; guid := g; details := clicked;
                               timestamp := toISOString now;
                               podName := Some "frontend-pod"%string |}
                 (incr (requestCount s))) (podLogs s)) as [older Hlast].
  exists older. rewrite Hlast. reflexivity.
Qed.

Lemma click_is_logged_witness :
  podGuid Scene.loaded = Some (VString "00000000-0000-4000-8000-000000000000")
  /\ member "details" (snd (handleTileClick Sample.epoch Scene.leaf Scene.loaded))
     = Some (JString "Clicked Leaf tile - Fact 2")
  /\ status (fst (handle Sample.pod0 Sample.ctx0
                    (POST_api_log (snd (handleTileClick Sample.epoch Scene.leaf
                                          Scene.loaded)))
                    Sample.state0)) = 200%Z.
Proof.
  split; [reflexivity | split; [reflexivity |]].
  exact (proj1 (proj2 (click_is_logged Sample.epoch Scene.leaf Scene.loaded _
                         Sample.pod0 Sample.ctx0 Sample.state0 eq_refl))).
Defined.

(** X22. Started against a worker, the page takes over the token of the pod
    that answered /api/pod-guid and stops loading, and the session start it
    then posts passes the validator with that token as [guid] and the pod's
    name in the details; the clicks recorded so far are kept. *)
Theorem session_start_from_worker now fallback st p c s :
  exists obj,
    fst (handle p c GET_api_pod_guid s) = json 200 obj
    /\ let (st1, body) := fetchPodGuid now fallback (Some obj) st in
       podGuid st1 = Some (VString (POD_GUID p))
       /\ podInfo st1 = Some obj
       /\ loading st1 = false
       /\ currentFacts st1 = currentFacts st
       /\ LogActionSchema body
          = Some {| action := "session_start"; guid := POD_GUID p;
                    details := "Session started - Pod: " ++ pod_name (env c);
                    timestamp := toISOString now;
                    podName := Some "frontend-pod"%string |}.
Proof.
  eexists. split; [reflexivity |]. cbn. repeat split.
Qed.

(** X23. When the request to /api/pod-guid fails, the page falls back to a
    token of its own, 36 characters long, stops loading, and posts a
    session start in fallback mode that passes the validator; a pod that
    receives it stores its own token in the entry, not the fallback one. *)
Theorem session_start_fallback now fallback st p c s :
  let (st1, body) := fetchPodGuid now fallback None st in
  podGuid st1 = Some (VString (randomUUID fallback))
  /\ String.length (randomUUID fallback) = 36%nat
  /\ loading st1 = false
  /\ currentFacts st1 = currentFacts st
  /\ LogActionSchema body
     = Some {| action := "session_start"; guid := randomUUID fallback;
               details := "Session started - Fallback mode";
               timestamp := toISOString now;
               podName := Some "frontend-pod"%string |}
  /\ podLogs (snd (handle p c (POST_api_log body) s))
     = push_capped
         (toISOString (new_Date c) ++ " | Pod: " ++ pod_name (env c)
          ++ " | GUID: " ++ POD_GUID p ++ " | Action: session_start"
          ++ " | Details: Session started - Fallback mode"
          ++ " | Req#: " ++ toString (incr (requestCount s)))%string
         (podLogs s).
Proof.
  cbn [fetchPodGuid]. repeat split.
Qed.

End PageFacts.
